(** * Backup failure monitor and backup segment life cycle

    A shallow embedding of [BackupFailureMonitor.cc] (main loop, start,
    halt, serverIsUp) together with the segment state machine and the
    recovery filter that [BackupServer.h] declares.

    The monitor thread is a step machine over an explicit program counter;
    the replica manager, the log and the server tracker are interfaces,
    since the monitor only ever calls into them. *)

From Stdlib Require Import NArith Lia List Bool.
From stdpp Require Import base option list gmap.
Import ListNotations.

Set Default Proof Using "Type".

Module BackupFailureMonitor.

(** ** Identifiers and events *)

(** [ServerId] wraps a 64-bit id ([id.getId()] is printed with %lu);
    segment ids are [uint64_t]. *)
Definition ServerId := N.
Definition SegmentId := N.

(** A raw pointer that is only tested against NULL and compared. *)
Definition Ptr := N.

(** The kinds of membership change the tracker hands out.  The source tests
    [event != SERVER_CRASHED] only; the other two kinds are the ones the
    design names (server added, server removed). *)
Inductive ServerChangeEvent :=
  | SERVER_ADDED
  | SERVER_CRASHED
  | SERVER_REMOVED.

(** [ServerStatus::UP] is the only status the source names. *)
Inductive ServerStatus :=
  | UP
  | CRASHED
  | DOWN.

#[global] Instance ServerChangeEvent_eq_dec : EqDecision ServerChangeEvent.
Proof. solve_decision. Defined.

#[global] Instance ServerStatus_eq_dec : EqDecision ServerStatus.
Proof. solve_decision. Defined.

(** The two fields of [ServerDetails] the monitor reads. *)
Record ServerDetails := mkServerDetails {
  serverId : ServerId;
  status : ServerStatus
}.

(** ** Collaborators *)

(** What [tracker.getServerDetails(id)] can do: throw an [Exception],
    return NULL, or return a pointer to the details. *)
Inductive Lookup :=
  | LookupThrows
  | LookupNull
  | LookupFound (d : ServerDetails).

(** The server tracker, as the monitor uses it.  [getChange] fills its two
    out-parameters and returns true, or returns false and leaves them. *)
Class ServerTracker (T : Type) := {
  hasChanges : T -> bool;
  getChange : T -> option (ServerDetails * ServerChangeEvent) * T;
  getServerDetails : T -> ServerId -> Lookup
}.

(** A call into the replica manager or the log either returns, or throws;
    both leave a new state of the world behind. *)
Inductive Outcome (W A : Type) :=
  | Returns (w : W) (a : A)
  | Throws (w : W).
Arguments Returns {W A} w a.
Arguments Throws {W A} w.

(** The replica manager and the log share one state [W]: the log calls
    back into the replica manager.  [handleBackupFailure] returns a
    [Tub<uint64_t>]. *)
Class MasterSide (W : Type) := {
  isIdle : W -> bool;
  handleBackupFailure : ServerId -> W -> Outcome W (option SegmentId);
  allocateHeadIfStillOn : SegmentId -> W -> Outcome W unit;
  proceed : W -> Outcome W unit
}.

(** The calls the monitor makes, in the order it makes them. *)
Inductive Call :=
  | CallHandleBackupFailure (id : ServerId)
  | CallAllocateHeadIfStillOn (seg : SegmentId)
  | CallProceed.

#[global] Instance Call_eq_dec : EqDecision Call.
Proof. solve_decision. Defined.

Definition isFailureCall (c : Call) : bool :=
  match c with
  | CallHandleBackupFailure _ => true
  | _ => false
  end.

Definition isCrash (c : ServerDetails * ServerChangeEvent) : bool :=
  bool_decide (c.2 = SERVER_CRASHED).

Definition isRolloverCall (c : Call) : bool :=
  match c with
  | CallAllocateHeadIfStillOn _ => true
  | _ => false
  end.

(** Every call of [allocateHeadIfStillOn] in the trace comes right after a
    call of [handleBackupFailure]; [afterFailure] says whether the call
    before the trace was one. *)
Fixpoint rolloversFollowFailures (afterFailure : bool) (l : list Call)
  : bool :=
  match l with
  | [] => true
  | CallHandleBackupFailure _ :: rest => rolloversFollowFailures true rest
  | CallAllocateHeadIfStillOn _ :: rest =>
      afterFailure && rolloversFollowFailures false rest
  | CallProceed :: rest => rolloversFollowFailures false rest
  end.

(** ** The monitor *)

(** Where the monitor thread stands in [main]:
    - [AtWait]: holding the mutex, about to evaluate the condition of the
      inner [while] at the top of the outer loop;
    - [Blocked]: inside [changesOrExit.wait(lock)];
    - [AtDrain]: at the head of the loop that drains the tracker;
    - [Finished]: [main] returned;
    - [Failed]: an exception left [main] (logged and rethrown). *)
Inductive Pc :=
  | AtWait
  | Blocked
  | AtDrain
  | Finished
  | Failed.

#[global] Instance Pc_eq_dec : EqDecision Pc.
Proof. solve_decision. Defined.

Section Monitor.

Context {T W : Type} {HT : ServerTracker T} {HW : MasterSide W}.

(** The fields of [BackupFailureMonitor] ([thread] is a [Tub]: empty until
    [start] constructs it), the state of the master side it calls into, and
    the calls made so far. *)
Record State := mkState {
  replicaManager : option Ptr;
  log : option Ptr;
  running : bool;
  thread : option Pc;
  tracker : T;
  world : W;
  calls : list Call
}.

Definition set_thread (pc : option Pc) (s : State) : State :=
  mkState (replicaManager s) (log s) (running s) pc (tracker s) (world s)
          (calls s).

Definition set_tracker (t : T) (s : State) : State :=
  mkState (replicaManager s) (log s) (running s) (thread s) t (world s)
          (calls s).

Definition set_world (w : W) (s : State) : State :=
  mkState (replicaManager s) (log s) (running s) (thread s) (tracker s) w
          (calls s).

Definition record_call (c : Call) (s : State) : State :=
  mkState (replicaManager s) (log s) (running s) (thread s) (tracker s)
          (world s) (calls s ++ [c]).

Definition set_log_running (l : option Ptr) (r : bool) (s : State) : State :=
  mkState (replicaManager s) l r (thread s) (tracker s) (world s) (calls s).

(** The constructor: [log(NULL)], [running(false)], no thread. *)
Definition construct (rm : option Ptr) (t : T) (w : W) : State :=
  mkState rm None false None t w [].

(** [(!replicaManager || replicaManager->isIdle()) && !tracker.hasChanges()] *)
Definition nothing_to_do (s : State) : bool :=
  match replicaManager s with
  | None => true
  | Some _ => isIdle (world s)
  end && negb (hasChanges (tracker s)).

(** The body of [if (replicaManager) { ... }] for a crashed server [id],
    taken as one step of the thread: [log] is read as it stands when the
    step begins.  The thread holds no mutex here; [report_failure] and
    [roll_head] below are the two halves of this body, for when another
    thread runs between the call and the test of [log]. *)
Definition notify_failure (id : ServerId) (s : State) : State :=
  match replicaManager s with
  | None => s
  | Some _ =>
      let s1 := record_call (CallHandleBackupFailure id) s in
      match handleBackupFailure id (world s) with
      | Throws w1 => set_thread (Some Failed) (set_world w1 s1)
      | Returns w1 failedOpenSegment =>
          let s2 := set_world w1 s1 in
          match log s, failedOpenSegment with
          | Some _, Some seg =>
              let s3 := record_call (CallAllocateHeadIfStillOn seg) s2 in
              match allocateHeadIfStillOn seg w1 with
              | Throws w2 => set_thread (Some Failed) (set_world w2 s3)
              | Returns w2 _ => set_world w2 s3
              end
          | _, _ => s2
          end
      end
  end.

(** [if (replicaManager) replicaManager->proceed();] and back to the top of
    the outer loop. *)
Definition after_drain (s : State) : State :=
  match replicaManager s with
  | None => set_thread (Some AtWait) s
  | Some _ =>
      let s1 := record_call CallProceed s in
      match proceed (world s) with
      | Throws w1 => set_thread (Some Failed) (set_world w1 s1)
      | Returns w1 _ => set_thread (Some AtWait) (set_world w1 s1)
      end
  end.

(** One pass through the drain loop: take a change under the mutex; leave
    the loop when there is none, skip it unless it is a crash. *)
Definition drain_step (s : State) : State :=
  match getChange (tracker s) with
  | (None, t') => after_drain (set_tracker t' s)
  | (Some (server, event), t') =>
      let id := serverId server in
      if decide (event <> SERVER_CRASHED) then set_tracker t' s
      else notify_failure id (set_tracker t' s)
  end.

(** One evaluation of the wait loop's condition, mutex held. *)
Definition wait_step (s : State) : State :=
  if nothing_to_do s then
    if negb (running s) then set_thread (Some Finished) s
    else set_thread (Some Blocked) s
  else set_thread (Some AtDrain) s.

(** One step of the thread running [main]. A blocked, finished or failed
    thread, or one that was never constructed, does not move. *)
Definition main_step (s : State) : State :=
  match thread s with
  | Some AtWait => wait_step s
  | Some AtDrain => drain_step s
  | _ => s
  end.

Fixpoint run (n : nat) (s : State) : State :=
  match n with
  | O => s
  | S k => run k (main_step s)
  end.

(** [changesOrExit.notify_one()]: a thread inside [wait] re-evaluates the
    loop condition; otherwise the notification is lost. *)
Definition notify_one (s : State) : State :=
  match thread s with
  | Some Blocked => set_thread (Some AtWait) s
  | _ => s
  end.

Definition trackerChangesEnqueued (s : State) : State := notify_one s.

(** [start(log)]: [None] is the failed assertion. *)
Definition start (l : option Ptr) (s : State) : option State :=
  match log s with
  | Some l0 =>
      if decide (l = Some l0) then
        if running s then Some s
        else Some (set_thread (Some AtWait) (set_log_running l true s))
      else None
  | None =>
      if running s then Some s
      else Some (set_thread (Some AtWait) (set_log_running l true s))
  end.

(** [halt()] up to [lock.unlock()]: nothing when not running, else clear
    [log] and [running] and signal the condition. *)
Definition halt_request (s : State) : State :=
  if negb (running s) then s
  else notify_one (set_log_running None false s).

(** [thread->join()] with [fuel] steps of the monitor thread: [None] when
    the thread has not returned by then. *)
Definition join (fuel : nat) (s : State) : option State :=
  let s' := run fuel s in
  match thread s' with
  | Some Finished => Some (set_thread None s')
  | _ => None
  end.

Definition halt (fuel : nat) (s : State) : option State :=
  if negb (running s) then Some s
  else join fuel (halt_request s).

(** [serverIsUp(serverId)]; [locked] says whether [try_to_lock] got the
    mutex. *)
Definition serverIsUp (locked : bool) (s : State) (id : ServerId) : bool :=
  if negb locked then false
  else
    let backup :=
      match getServerDetails (tracker s) id with
      | LookupFound d => Some d
      | LookupNull => None
      | LookupThrows => None
      end in
    match backup with
    | None => false
    | Some d => if decide (status d <> UP) then false else true
    end.

(** What other threads can do to the monitor between two steps of its own
    thread. *)
Inductive Action :=
  | ActStart (l : option Ptr)
  | ActHaltRequest
  | ActEnqueued
  | ActMainStep.

Definition act (a : Action) (s : State) : option State :=
  match a with
  | ActStart l => start l s
  | ActHaltRequest => Some (halt_request s)
  | ActEnqueued => Some (trackerChangesEnqueued s)
  | ActMainStep => Some (main_step s)
  end.

Fixpoint exec (acts : list Action) (s : State) : option State :=
  match acts with
  | [] => Some s
  | a :: rest =>
      match act a s with
      | Some s' => exec rest s'
      | None => None
      end
  end.

(** Lines 107-108 on their own: the call of [handleBackupFailure], which
    the thread makes without holding the mutex.  The second component is
    [failedOpenSegment], or [None] when the call threw. *)
Definition report_failure (id : ServerId) (s : State)
  : State * option (option SegmentId) :=
  let s1 := record_call (CallHandleBackupFailure id) s in
  match handleBackupFailure id (world s) with
  | Throws w1 => (set_thread (Some Failed) (set_world w1 s1), None)
  | Returns w1 failedOpenSegment => (set_world w1 s1, Some failedOpenSegment)
  end.

(** Lines 109-112 on their own: the test [log && failedOpenSegment] and the
    call through [log], on the state the monitor is in by then; [halt()]
    may have reset [log] since [handleBackupFailure] was called. *)
Definition roll_head (failedOpenSegment : option SegmentId) (s : State)
  : State :=
  match log s, failedOpenSegment with
  | Some _, Some seg =>
      let s3 := record_call (CallAllocateHeadIfStillOn seg) s in
      match allocateHeadIfStillOn seg (world s) with
      | Throws w2 => set_thread (Some Failed) (set_world w2 s3)
      | Returns w2 _ => set_world w2 s3
      end
  | _, _ => s
  end.

(** [~BackupFailureMonitor()]: halt the thread, if running. *)
Definition destroy (fuel : nat) (s : State) : option State := halt fuel s.

(** The changes the next [n] calls of [tracker.getChange] hand out, up to
    the first call that reports no change. *)
Fixpoint nextChanges (n : nat) (t : T)
  : list (ServerDetails * ServerChangeEvent) :=
  match n with
  | O => []
  | S k =>
      match getChange t with
      | (Some c, t') => c :: nextChanges k t'
      | (None, _) => []
      end
  end.

Definition isStart (a : Action) : bool :=
  match a with
  | ActStart _ => true
  | _ => false
  end.

(** No call into the replica manager or the log throws. *)
Definition neverThrows : Prop :=
  (forall id w, exists w' r, handleBackupFailure id w = Returns w' r) /\
  (forall seg w, exists w', allocateHeadIfStillOn seg w = Returns w' tt) /\
  (forall w, exists w', proceed w = Returns w' tt).

(** A tracker whose [hasChanges] and [getChange] agree and whose backlog,
    measured by [measure], shrinks with every change it hands out. *)
Definition drains (measure : T -> nat) : Prop :=
  forall t,
    if hasChanges t
    then exists c t', getChange t = (Some c, t') /\ measure t' < measure t
    else exists t', getChange t = (None, t') /\ hasChanges t' = false.

(** Nothing keeps the thread from its test of [running]: there is no
    replica manager, or it is always idle and nothing throws. *)
Definition quiet (s : State) : Prop :=
  replicaManager s = None \/ (neverThrows /\ forall w, isIdle w = true).

End Monitor.

Arguments State T W : clear implicits.

(** ** A concrete tracker and master side

    The tracker as a queue of changes in arrival order and a table of known
    servers; the master side as a log whose head segment has a replica on
    one backup.  These instantiate the two interfaces wherever a run of the
    monitor is evaluated. *)

Record QueueTracker := mkQueueTracker {
  pending : list (ServerDetails * ServerChangeEvent);
  table : list (ServerId * Lookup)
}.

Fixpoint table_lookup (tbl : list (ServerId * Lookup)) (id : ServerId)
  : Lookup :=
  match tbl with
  | [] => LookupNull
  | (k, r) :: rest => if N.eqb k id then r else table_lookup rest id
  end.

#[global] Instance QueueTracker_ops : ServerTracker QueueTracker := {|
  hasChanges t := match pending t with [] => false | _ :: _ => true end;
  getChange t :=
    match pending t with
    | [] => (None, t)
    | c :: rest => (Some c, mkQueueTracker rest (table t))
    end;
  getServerDetails t id := table_lookup (table t) id
|}.

(** [busy]: the replica manager still has work queued; [headSegment] and
    [headBackup]: the log head and the backup holding its replica;
    [broken]: calls into the replica manager throw. *)
Record SimMaster := mkSimMaster {
  busy : bool;
  headSegment : SegmentId;
  headBackup : ServerId;
  broken : bool
}.

#[global] Instance SimMaster_ops : MasterSide SimMaster := {|
  isIdle w := negb (busy w);
  handleBackupFailure id w :=
    if broken w then Throws w
    else if N.eqb id (headBackup w) then Returns w (Some (headSegment w))
    else Returns w None;
  allocateHeadIfStillOn seg w :=
    if N.eqb seg (headSegment w)
    then Returns (mkSimMaster (busy w) (N.succ seg) 0%N (broken w)) tt
    else Returns w tt;
  proceed w := if broken w then Throws w else Returns w tt
|}.

(** ** States of the monitor used in evaluated runs *)

(** The scenario of the design document: backup 42 holds the replica of
    the log head, segment 17, and its crash is pending in the tracker. *)
Definition master17 : SimMaster := mkSimMaster false 17%N 42%N false.

Definition crashOf42 : QueueTracker :=
  mkQueueTracker [(mkServerDetails 42%N CRASHED, SERVER_CRASHED)]
                 [(7%N, LookupFound (mkServerDetails 7%N UP));
                  (42%N, LookupFound (mkServerDetails 42%N CRASHED));
                  (99%N, LookupThrows)].

Definition fresh : State QueueTracker SimMaster :=
  construct (Some 1%N) crashOf42 master17.

(** Started with log 5, first wait check passed: about to drain. *)
Definition draining : State QueueTracker SimMaster :=
  mkState (Some 1%N) (Some 5%N) true (Some AtDrain) crashOf42 master17 [].

(** A replica manager that stays busy, nothing pending in the tracker. *)
Definition busyMonitor : State QueueTracker SimMaster :=
  mkState (Some 1%N) (Some 5%N) true (Some AtWait)
          (mkQueueTracker [] []) (mkSimMaster true 17%N 42%N false) [].

(** Draining, the next change being the arrival of server 8. *)
Definition joining : State QueueTracker SimMaster :=
  mkState (Some 1%N) (Some 5%N) true (Some AtDrain)
          (mkQueueTracker [(mkServerDetails 8%N UP, SERVER_ADDED);
                           (mkServerDetails 42%N CRASHED, SERVER_CRASHED)] [])
          master17 [].

(** Draining, nothing left in the tracker. *)
Definition drained : State QueueTracker SimMaster :=
  mkState (Some 1%N) (Some 5%N) true (Some AtDrain)
          (mkQueueTracker [] []) master17 [CallHandleBackupFailure 42%N].

(** At the wait check with the replica manager idle and nothing pending. *)
Definition idle : State QueueTracker SimMaster :=
  mkState (Some 1%N) (Some 5%N) true (Some AtWait)
          (mkQueueTracker [] []) master17 [].

(** Asleep: replica manager idle, nothing pending. *)
Definition sleeping : State QueueTracker SimMaster :=
  mkState (Some 1%N) (Some 5%N) true (Some Blocked)
          (mkQueueTracker [] []) master17 [].

(** A master side that is always idle and never throws: [calmHead] is the
    head segment, whose replica backup 42 holds. *)
Record CalmMaster := mkCalmMaster {
  calmHead : SegmentId
}.

#[global] Instance CalmMaster_ops : MasterSide CalmMaster := {|
  isIdle w := true;
  handleBackupFailure id w :=
    if N.eqb id 42 then Returns w (Some (calmHead w)) else Returns w None;
  allocateHeadIfStillOn seg w :=
    if N.eqb seg (calmHead w)
    then Returns (mkCalmMaster (N.succ seg)) tt
    else Returns w tt;
  proceed w := Returns w tt
|}.

(** Halted while the crash of backup 42 was still to be drained: [log] is
    NULL and [running] false, the thread at the drain loop. *)
Definition haltedDraining : State QueueTracker SimMaster :=
  mkState (Some 1%N) None false (Some AtDrain) crashOf42 master17 [].

(** Started with a NULL log (the testing set-up), the crash pending. *)
Definition startedWithoutLog : State QueueTracker SimMaster :=
  mkState (Some 1%N) None true (Some AtWait) crashOf42 master17 [].

(** No replica manager (the testing set-up), asleep, a crash pending. *)
Definition unmanagedAsleep : State QueueTracker SimMaster :=
  mkState None (Some 5%N) true (Some Blocked) crashOf42 master17 [].

(** Asleep while the crash of backup 42 has just been enqueued. *)
Definition asleepWithCrash : State QueueTracker SimMaster :=
  mkState (Some 1%N) (Some 5%N) true (Some Blocked) crashOf42 master17 [].

(** Draining the crash of backup 42 with a replica manager that throws. *)
Definition brokenDraining : State QueueTracker SimMaster :=
  mkState (Some 1%N) (Some 5%N) true (Some AtDrain) crashOf42
          (mkSimMaster false 17%N 42%N true) [].

(** Constructed, not started, nothing pending. *)
Definition quietFresh : State QueueTracker SimMaster :=
  construct (Some 1%N) (mkQueueTracker [] []) master17.

(** Draining four changes, two of them crashes, with the calm master. *)
Definition calmDraining : State QueueTracker CalmMaster :=
  mkState (Some 1%N) (Some 5%N) true (Some AtDrain)
          (mkQueueTracker
             [(mkServerDetails 8%N UP, SERVER_ADDED);
              (mkServerDetails 42%N CRASHED, SERVER_CRASHED);
              (mkServerDetails 42%N DOWN, SERVER_REMOVED);
              (mkServerDetails 9%N CRASHED, SERVER_CRASHED)] [])
          (mkCalmMaster 17%N) [].

End BackupFailureMonitor.

Module BackupServer.

(** ** Segment replicas

    [BackupServer.h] declares the state enumeration, the fields of
    [SegmentInfo] and the handlers; the bodies live in [BackupServer.cc].
    The operations below are therefore written from the design document's
    state table, over the data the header declares. *)

Abbreviation Bytes := (list Byte.byte).

(** [SegmentInfo::State], in declaration order. *)
Inductive State :=
  | UNINIT
  | OPEN
  | CLOSED
  | FREED.

#[global] Instance State_eq_dec : EqDecision State.
Proof. solve_decision. Defined.


(** Status codes: [OK] and the error kinds of the design; [NotPersisted]
    and [StillOpen] are the two errors of [startLoading]. *)
Inductive Status :=
  | OK
  | BadRequest
  | SegmentAlreadyOpen
  | SegmentNotOpen
  | SegmentAlreadyClosed
  | SegmentFreed
  | SegmentUnavailable
  | PoolExhausted
  | StorageOutOfSpace
  | StorageIOError
  | Transient
  | NotPersisted
  | StillOpen.

#[global] Instance Status_eq_dec : EqDecision Status.
Proof. solve_decision. Defined.

(** *** Storage and pool *)

(** Modelled from the spec: the storage adapter ([BackupStorage] is not
    among the sources).  An array of fixed-size extents; a handle is an
    index into it. *)
Inductive Extent :=
  | ExtentFree
  | ExtentReserved
  | ExtentWritten (content : Bytes).

Definition Handle := nat.

(** [allocate() -> Handle | NoSpace]: the first free extent. *)
Fixpoint allocate (st : list Extent) : option (Handle * list Extent) :=
  match st with
  | [] => None
  | ExtentFree :: rest => Some (0, ExtentReserved :: rest)
  | e :: rest =>
      match allocate rest with
      | Some (h, rest') => Some (S h, e :: rest')
      | None => None
      end
  end.

(** [write(handle, buffer)]: [None] is a failed completion. *)
Definition storage_write (h : Handle) (buf : Bytes) (st : list Extent)
  : option (list Extent) :=
  match st !! h with
  | Some ExtentReserved | Some (ExtentWritten _) =>
      Some (<[h := ExtentWritten buf]> st)
  | _ => None
  end.

(** [read(handle, buffer)]: [None] is a failed completion. *)
Definition storage_read (h : Handle) (st : list Extent) : option Bytes :=
  match st !! h with
  | Some (ExtentWritten c) => Some c
  | _ => None
  end.

Definition storage_free (h : Handle) (st : list Extent) : list Extent :=
  <[h := ExtentFree]> st.

(** Modelled from the spec: the aligned pool and the storage a segment
    draws on.  The pool is its free list, last released first; a released
    buffer keeps its bytes. *)
Record Resources := mkResources {
  pool : list Bytes;
  storage : list Extent
}.

(** *** One replica *)

(** The fields of [SegmentInfo]: [segment] is the staging buffer,
    [segmentSync] the completion of a load in flight (it carries the handle
    being read). *)
Record SegmentInfo := mkSegmentInfo {
  masterId : N;
  segmentId : N;
  segment : option Bytes;
  segmentSync : option Handle;
  state : State;
  storageHandle : option Handle
}.

Definition newSegmentInfo (m s : N) : SegmentInfo :=
  mkSegmentInfo m s None None UNINIT None.

(** Modelled from the spec: the body of [SegmentInfo::open], row [open] of
    the state table. *)
Definition open (info : SegmentInfo) (r : Resources)
  : Status * SegmentInfo * Resources :=
  match state info with
  | UNINIT =>
      match allocate (storage r) with
      | None => (StorageOutOfSpace, info, r)
      | Some (h, st') =>
          match pool r with
          | [] => (PoolExhausted, info, r)
          | buf :: rest =>
              (OK,
               mkSegmentInfo (masterId info) (segmentId info) (Some buf) None
                             OPEN (Some h),
               mkResources rest st')
          end
      end
  | OPEN => (OK, info, r)
  | CLOSED => (SegmentAlreadyClosed, info, r)
  | FREED => (SegmentFreed, info, r)
  end.

(** [memcpy] of [len] bytes of [data] into [buf] at [off]. *)
Definition copyIn (buf : Bytes) (off len : nat) (data : Bytes) : Bytes :=
  take off buf ++ take len data ++ drop (off + len) buf.

(** Modelled from the spec: row [write] of the state table, with the bound
    [offset + length > segmentSize] of its policy (an out-of-range offset is
    a bad request).  An OPEN segment has its buffer; were it missing, there
    would be nothing to copy into and the write is refused. *)
Definition write (segmentSize offset length : N) (data : Bytes)
    (info : SegmentInfo) : Status * SegmentInfo :=
  match state info with
  | UNINIT => (SegmentNotOpen, info)
  | OPEN =>
      if (segmentSize <? offset + length)%N then (BadRequest, info)
      else
        match segment info with
        | None => (SegmentNotOpen, info)
        | Some buf =>
            (OK,
             mkSegmentInfo (masterId info) (segmentId info)
               (Some (copyIn buf (N.to_nat offset) (N.to_nat length) data))
               (segmentSync info) OPEN (storageHandle info))
        end
  | CLOSED => (SegmentAlreadyClosed, info)
  | FREED => (SegmentFreed, info)
  end.

(** Modelled from the spec: the body of [SegmentInfo::close], row [close].
    The write-through is awaited; on failure the segment stays OPEN. *)
Definition close (info : SegmentInfo) (r : Resources)
  : Status * SegmentInfo * Resources :=
  match state info with
  | UNINIT => (SegmentNotOpen, info, r)
  | OPEN =>
      match segment info, storageHandle info with
      | Some buf, Some h =>
          match storage_write h buf (storage r) with
          | Some st' =>
              (OK,
               mkSegmentInfo (masterId info) (segmentId info) None None
                             CLOSED (Some h),
               mkResources (buf :: pool r) st')
          | None => (StorageIOError, info, r)
          end
      | _, _ => (StorageIOError, info, r)
      end
  | CLOSED => (OK, info, r)
  | FREED => (SegmentFreed, info, r)
  end.

(** Modelled from the spec: the body of [SegmentInfo::startLoading]. *)
Definition startLoading (info : SegmentInfo) (r : Resources)
  : Status * SegmentInfo * Resources :=
  match state info with
  | UNINIT => (NotPersisted, info, r)
  | OPEN => (StillOpen, info, r)
  | CLOSED =>
      match segment info with
      | Some _ => (OK, info, r)
      | None =>
          match pool r, storageHandle info with
          | [], _ => (PoolExhausted, info, r)
          | _, None => (StorageIOError, info, r)
          | buf :: rest, Some h =>
              (OK,
               mkSegmentInfo (masterId info) (segmentId info) (Some buf)
                             (Some h) CLOSED (Some h),
               mkResources rest (storage r))
          end
      end
  | FREED => (SegmentFreed, info, r)
  end.

(** Modelled from the spec: the body of [SegmentInfo::getSegment], row
    [getBuffer]: on a CLOSED segment wait for the load in flight, if any,
    then hand out the buffer. *)
Definition getSegment (info : SegmentInfo) (st : list Extent)
  : (Bytes + Status) * SegmentInfo :=
  match state info with
  | UNINIT => (inr SegmentUnavailable, info)
  | OPEN =>
      match segment info with
      | Some buf => (inl buf, info)
      | None => (inr SegmentUnavailable, info)
      end
  | CLOSED =>
      match segmentSync info with
      | Some h =>
          match storage_read h st with
          | Some content =>
              (inl content,
               mkSegmentInfo (masterId info) (segmentId info) (Some content)
                             None CLOSED (storageHandle info))
          | None => (inr StorageIOError, info)
          end
      | None =>
          match segment info with
          | Some buf => (inl buf, info)
          | None => (inr SegmentUnavailable, info)
          end
      end
  | FREED => (inr SegmentFreed, info)
  end.

Definition release (buf : option Bytes) (p : list Bytes) : list Bytes :=
  match buf with
  | Some b => b :: p
  | None => p
  end.

Definition freeExtent (h : option Handle) (st : list Extent) : list Extent :=
  match h with
  | Some x => storage_free x st
  | None => st
  end.

(** Modelled from the spec: the body of [SegmentInfo::free], row [free]:
    from any state to FREED, giving back the buffer and the extent. *)
Definition free (info : SegmentInfo) (r : Resources)
  : Status * SegmentInfo * Resources :=
  match state info with
  | FREED => (OK, info, r)
  | _ =>
      (OK,
       mkSegmentInfo (masterId info) (segmentId info) None None FREED None,
       mkResources (release (segment info) (pool r))
                   (freeExtent (storageHandle info) (storage r)))
  end.

(** The invariants of the data model, state by state. *)
Definition invariant (info : SegmentInfo) : Prop :=
  match state info with
  | UNINIT | FREED =>
      segment info = None /\ storageHandle info = None /\
      segmentSync info = None
  | OPEN =>
      is_Some (segment info) /\ is_Some (storageHandle info) /\
      segmentSync info = None
  | CLOSED =>
      is_Some (storageHandle info) /\
      (is_Some (segmentSync info) -> is_Some (segment info))
  end.

(** The operations a master applies to one replica. *)
Inductive Op :=
  | OpOpen
  | OpWrite (offset length : N) (data : Bytes)
  | OpClose
  | OpFree.

Definition apply_op (segmentSize : N) (op : Op)
    (c : SegmentInfo * Resources) : Status * (SegmentInfo * Resources) :=
  let '(info, r) := c in
  match op with
  | OpOpen => let '(st, info', r') := open info r in (st, (info', r'))
  | OpWrite off len data =>
      let '(st, info') := write segmentSize off len data info in
      (st, (info', r))
  | OpClose => let '(st, info', r') := close info r in (st, (info', r'))
  | OpFree => let '(st, info', r') := free info r in (st, (info', r'))
  end.

(** The states a replica passes through under a sequence of operations,
    the starting state first. *)
Fixpoint observed (segmentSize : N) (ops : list Op)
    (c : SegmentInfo * Resources) : list State :=
  state (fst c) ::
  match ops with
  | [] => []
  | op :: rest => observed segmentSize rest (snd (apply_op segmentSize op c))
  end.

(** The next state along UNINIT, OPEN, CLOSED, FREED. *)
Definition successor (s : State) : option State :=
  match s with
  | UNINIT => Some OPEN
  | OPEN => Some CLOSED
  | CLOSED => Some FREED
  | FREED => None
  end.

(** A walk along the chain UNINIT, OPEN, CLOSED, FREED that may stay in
    place but never skips: what a prefix of the chain with self-loops is. *)
Fixpoint chain_walk (l : list State) : bool :=
  match l with
  | a :: ((b :: _) as rest) =>
      (bool_decide (b = a) || bool_decide (successor a = Some b))
      && chain_walk rest
  | _ => true
  end.

Definition chain_prefix (l : list State) : bool :=
  match l with
  | [] => true
  | a :: _ => bool_decide (a = UNINIT) && chain_walk l
  end.


(** ** The key of the segments map *)

(** [MasterSegmentIdPair]: the two ids, both [uint64_t]. *)
Record MasterSegmentIdPair := mkMasterSegmentIdPair {
  keyMasterId : N;
  keySegmentId : N
}.

(** [std::pair]'s [operator<] on [(first, second)]:
    [a.first < b.first || (!(b.first < a.first) && a.second < b.second)]. *)
Definition pair_less (a b : N * N) : bool :=
  (a.1 <? b.1)%N || (negb (b.1 <? a.1)%N && (a.2 <? b.2)%N).

(** [MasterSegmentIdPair::operator<]: compare
    [make_pair(masterId, segmentId)] with the pair made of [right]. *)
Definition lessThan (left right : MasterSegmentIdPair) : bool :=
  pair_less (keyMasterId left, keySegmentId left)
            (keyMasterId right, keySegmentId right).

(** Two keys that [std::map] cannot tell apart: neither is less than the
    other. *)
Definition equivalentKeys (a b : MasterSegmentIdPair) : bool :=
  negb (lessThan a b) && negb (lessThan b a).

(** The operations on one replica, with the two of the recovery path. *)
Inductive SegmentCall :=
  | DoOp (op : Op)
  | DoStartLoading
  | DoGetSegment.

Definition apply_call (segmentSize : N) (c : SegmentCall)
    (x : SegmentInfo * Resources) : SegmentInfo * Resources :=
  match c with
  | DoOp op => snd (apply_op segmentSize op x)
  | DoStartLoading =>
      let '(_, info', r') := startLoading (fst x) (snd x) in (info', r')
  | DoGetSegment => (snd (getSegment (fst x) (storage (snd x))), snd x)
  end.

Fixpoint apply_calls (segmentSize : N) (cs : list SegmentCall)
    (x : SegmentInfo * Resources) : SegmentInfo * Resources :=
  match cs with
  | [] => x
  | c :: rest => apply_calls segmentSize rest (apply_call segmentSize c x)
  end.

(** ** Recovery filter *)

(** Modelled from the spec: the entry types it names ([LogTypes.h] is not
    among the sources): objects, and the metadata entries (segment header,
    segment footer, log digest). *)
Inductive LogEntryType :=
  | OBJECT
  | SEGHEADER
  | SEGFOOTER
  | LOGDIGEST.

#[global] Instance LogEntryType_eq_dec : EqDecision LogEntryType.
Proof. solve_decision. Defined.

(** Modelled from the spec: a decoded log entry (the log format is not
    among the sources): its type and its payload. *)
Record LogEntry := mkLogEntry {
  entryType : LogEntryType;
  entryBytes : Bytes
}.

(** Modelled from the spec: a tablet of the partitioning payload
    ([ProtoBuf::Tablets] is not among the sources),
    [(tableId, firstKeyHash, lastKeyHash)]; a partition is a list of
    tablets, a partitioning an ordered list of partitions. *)
Record Tablet := mkTablet {
  tableId : N;
  firstKeyHash : N;
  lastKeyHash : N
}.

(** Modelled from the spec: what the design leaves to the log format, which
    is not among the sources: the decoder that iterates the entries of a
    buffer, the table id and key hash stored in an object's payload, the tag
    byte of a type and the 32-bit length field. *)
Class LogFormat := {
  decodeEntries : Bytes -> list LogEntry;
  objectKey : Bytes -> N * N;
  typeTag : LogEntryType -> Byte.byte;
  encodeLength : nat -> Bytes
}.

Definition tabletIndependent (type : LogEntryType) : bool :=
  match type with
  | OBJECT => false
  | SEGHEADER | SEGFOOTER | LOGDIGEST => true
  end.

Definition inTablet (table hash : N) (t : Tablet) : bool :=
  (tableId t =? table)%N && (firstKeyHash t <=? hash)%N
  && (hash <=? lastKeyHash t)%N.

(** The scan over the tablets of the partition. *)
Fixpoint inAnyTablet (table hash : N) (tablets : list Tablet) : bool :=
  match tablets with
  | [] => false
  | t :: rest =>
      if inTablet table hash t then true else inAnyTablet table hash rest
  end.

Section Recovery.

Context `{LogFormat}.

(** Modelled from the spec: the body of [BackupServer::keepEntry], the
    tablet predicate of the recovery reader. *)
Definition keepEntry (type : LogEntryType) (data : Bytes)
    (tablets : list Tablet) : bool :=
  if tabletIndependent type then true
  else let '(table, hash) := objectKey data in inAnyTablet table hash tablets.

(** Modelled from the spec: one entry of the filtered-entries payload,
    [(entryType: u8, entryLength: u32, entryBytes)], no padding. *)
Definition frame (e : LogEntry) : Bytes :=
  typeTag (entryType e) :: encodeLength (length (entryBytes e))
  ++ entryBytes e.

(** Modelled from the spec: the copy loop of [getRecoveryData]: walk the
    entries, append each kept one to the response buffer. *)
Fixpoint appendKept (tablets : list Tablet) (entries : list LogEntry)
    (response : Bytes) : Bytes :=
  match entries with
  | [] => response
  | e :: rest =>
      if keepEntry (entryType e) (entryBytes e) tablets
      then appendKept tablets rest (response ++ frame e)
      else appendKept tablets rest response
  end.

(** The same loop, collecting the entries instead of their bytes. *)
Fixpoint keptEntries (tablets : list Tablet) (entries : list LogEntry)
    (acc : list LogEntry) : list LogEntry :=
  match entries with
  | [] => acc
  | e :: rest =>
      if keepEntry (entryType e) (entryBytes e) tablets
      then keptEntries tablets rest (acc ++ [e])
      else keptEntries tablets rest acc
  end.

(** The tablet predicate in the words of the design: the entry's type is
    independent of tablets, or its table id and key hash fall inside some
    tablet of the partition. *)
Definition inPartition (e : LogEntry) (tablets : list Tablet) : Prop :=
  tabletIndependent (entryType e) = true \/
  exists t, t ∈ tablets /\
    tableId t = fst (objectKey (entryBytes e)) /\
    (firstKeyHash t <= snd (objectKey (entryBytes e)) <= lastKeyHash t)%N.

(** ** The server *)

(** The fields of [BackupServer] the handlers use ([pool] and [storage]
    together as [resources], [segments], [segmentSize]), and, modelled from
    the spec, the partitioning each [startReadingData] left for its
    master. *)
Record Server := mkServer {
  resources : Resources;
  segments : gmap (N * N) SegmentInfo;
  segmentSize : N;
  recoveries : gmap N (list (list Tablet))
}.

Definition findSegmentInfo (srv : Server) (m s : N) : option SegmentInfo :=
  segments srv !! (m, s).

Definition set_segment (m s : N) (info : SegmentInfo) (r : Resources)
    (srv : Server) : Server :=
  mkServer r (<[(m, s) := info]> (segments srv)) (segmentSize srv)
           (recoveries srv).

(** Modelled from the spec: the body of [BackupServer::openSegment]; an
    entry is created on open. *)
Definition openSegment (srv : Server) (m s : N) : Status * Server :=
  let info := default (newSegmentInfo m s) (findSegmentInfo srv m s) in
  let '(st, info', r') := open info (resources srv) in
  match st with
  | OK => (OK, set_segment m s info' r' srv)
  | _ => (st, srv)
  end.

(** Modelled from the spec: the body of [BackupServer::writeSegment]. *)
Definition writeSegment (srv : Server) (m s offset length : N)
    (data : Bytes) : Status * Server :=
  let info := default (newSegmentInfo m s) (findSegmentInfo srv m s) in
  let '(st, info') := write (segmentSize srv) offset length data info in
  match st with
  | OK => (OK, set_segment m s info' (resources srv) srv)
  | _ => (st, srv)
  end.

(** Modelled from the spec: the body of [BackupServer::closeSegment]. *)
Definition closeSegment (srv : Server) (m s : N) : Status * Server :=
  let info := default (newSegmentInfo m s) (findSegmentInfo srv m s) in
  let '(st, info', r') := close info (resources srv) in
  match st with
  | OK => (OK, set_segment m s info' r' srv)
  | _ => (st, srv)
  end.

(** Modelled from the spec: the body of [BackupServer::freeSegment]; the
    entry is removed on free. *)
Definition freeSegment (srv : Server) (m s : N) : Status * Server :=
  let info := default (newSegmentInfo m s) (findSegmentInfo srv m s) in
  let '(st, _, r') := free info (resources srv) in
  (st, mkServer r' (delete (m, s) (segments srv)) (segmentSize srv)
                (recoveries srv)).

Definition readable (m : N) (info : SegmentInfo) : bool :=
  (masterId info =? m)%N
  && (bool_decide (state info = OPEN) || bool_decide (state info = CLOSED)).

(** Start the load of every segment in the snapshot; the status of
    [startLoading] is a hint and is dropped. *)
Fixpoint startLoads (snapshot : list (N * N * SegmentInfo)) (srv : Server)
  : Server :=
  match snapshot with
  | [] => srv
  | (k, _) :: rest =>
      match segments srv !! k with
      | None => startLoads rest srv
      | Some info =>
          let '(_, info', r') := startLoading info (resources srv) in
          startLoads rest (set_segment (fst k) (snd k) info' r' srv)
      end
  end.

(** Modelled from the spec: the body of [BackupServer::startReadingData]:
    snapshot the master's OPEN and CLOSED segments, start their loads, and
    answer their ids without waiting. *)
Definition startReadingData (srv : Server) (m : N)
    (partitions : list (list Tablet)) : Status * list N * Server :=
  let snapshot :=
    filter (fun kv => Is_true (readable m (snd kv)))
           (map_to_list (segments srv)) in
  let srv' := startLoads snapshot srv in
  (OK, map (fun kv => snd (fst kv)) snapshot,
   mkServer (resources srv') (segments srv') (segmentSize srv')
            (<[m := partitions]> (recoveries srv'))).

(** The response of [getRecoveryData]: status, byte count, filtered
    entries. *)
Record Response := mkResponse {
  status : Status;
  byteCount : nat;
  payload : Bytes
}.

Definition failure (st : Status) : Response := mkResponse st 0 [].

(** Modelled from the spec: the body of [BackupServer::getRecoveryData]:
    a request before [startReadingData] or for a partition that does not
    exist is a bad request; a missing or freed segment, or one whose
    buffer cannot be had, is unavailable; else the entries of the buffer
    are filtered with the tablets of the partition. *)
Definition getRecoveryData (srv : Server) (m s : N) (partitionIndex : nat)
  : Response * Server :=
  match recoveries srv !! m with
  | None => (failure BadRequest, srv)
  | Some partitions =>
      match partitions !! partitionIndex with
      | None => (failure BadRequest, srv)
      | Some tablets =>
          match findSegmentInfo srv m s with
          | None => (failure SegmentUnavailable, srv)
          | Some info =>
              if decide (state info = FREED)
              then (failure SegmentUnavailable, srv)
              else
                match getSegment info (storage (resources srv)) with
                | (inr _, _) => (failure SegmentUnavailable, srv)
                | (inl buf, info') =>
                    let bytes := appendKept tablets (decodeEntries buf) [] in
                    (mkResponse OK (length bytes) bytes,
                     set_segment m s info' (resources srv) srv)
                end
          end
      end
  end.

(** The persisted contents of a segment: what its extent holds. *)
Definition persisted (srv : Server) (m s : N) : option Bytes :=
  match findSegmentInfo srv m s with
  | Some info =>
      match storageHandle info with
      | Some h => storage_read h (storage (resources srv))
      | None => None
      end
  | None => None
  end.


End Recovery.

(** ** The states of a key *)

(** The state of the replica registered under [(m, s)]; a key without an
    entry has not been opened. *)
Definition keyState (srv : Server) (m s : N) : State :=
  match findSegmentInfo srv m s with
  | Some info => state info
  | None => UNINIT
  end.

(** One operation on the key [(m, s)], through the handlers: the state it
    leaves the replica in, and the server.  A free leaves the replica FREED
    and removes the entry. *)
Definition apply_key_op (m s : N) (op : Op) (srv : Server)
  : State * Server :=
  match op with
  | OpOpen =>
      let srv' := snd (openSegment srv m s) in (keyState srv' m s, srv')
  | OpWrite offset length data =>
      let srv' := snd (writeSegment srv m s offset length data) in
      (keyState srv' m s, srv')
  | OpClose =>
      let srv' := snd (closeSegment srv m s) in (keyState srv' m s, srv')
  | OpFree =>
      let info := default (newSegmentInfo m s) (findSegmentInfo srv m s) in
      (state (free info (resources srv)).1.2, snd (freeSegment srv m s))
  end.

Fixpoint statesAfter (m s : N) (ops : list Op) (srv : Server) : list State :=
  match ops with
  | [] => []
  | op :: rest =>
      let '(st, srv') := apply_key_op m s op srv in
      st :: statesAfter m s rest srv'
  end.

(** The states the key [(m, s)] passes through under a sequence of
    operations, the starting state first. *)
Definition observedKey (m s : N) (ops : list Op) (srv : Server)
  : list State :=
  keyState srv m s :: statesAfter m s ops srv.


(** ** A concrete log format

    Entries of four bytes: the tag, the table id, and the key hash as two
    bytes, high byte first; decoding stops at the first byte that is no
    tag.  This instantiates [LogFormat] wherever a recovery read is
    evaluated. *)

Definition byteN (b : Byte.byte) : N := Byte.to_N b.

Definition Nbyte (n : N) : Byte.byte :=
  default Byte.x00 (Byte.of_N (n mod 256)%N).

Definition toyTag (t : LogEntryType) : Byte.byte :=
  match t with
  | OBJECT => Byte.x4f
  | SEGHEADER => Byte.x48
  | SEGFOOTER => Byte.x46
  | LOGDIGEST => Byte.x44
  end.

Definition toyType (b : Byte.byte) : option LogEntryType :=
  match b with
  | Byte.x4f => Some OBJECT
  | Byte.x48 => Some SEGHEADER
  | Byte.x46 => Some SEGFOOTER
  | Byte.x44 => Some LOGDIGEST
  | _ => None
  end.

Fixpoint toyDecode (buf : Bytes) : list LogEntry :=
  match buf with
  | t :: a :: b :: c :: rest =>
      match toyType t with
      | Some ty => mkLogEntry ty [a; b; c] :: toyDecode rest
      | None => []
      end
  | _ => []
  end.

Definition toyKey (data : Bytes) : N * N :=
  match data with
  | [a; b; c] => (byteN a, (byteN b * 256 + byteN c)%N)
  | _ => (0%N, 0%N)
  end.

Definition u32le (n : nat) : Bytes :=
  let v := N.of_nat n in
  [Nbyte v; Nbyte (v / 256); Nbyte (v / 65536); Nbyte (v / 16777216)].

#[global] Instance ToyFormat : LogFormat := {|
  decodeEntries := toyDecode;
  objectKey := toyKey;
  typeTag := toyTag;
  encodeLength := u32le
|}.

Definition toyEntry (t : LogEntryType) (table hash : N) : Bytes :=
  [toyTag t; Nbyte table; Nbyte (hash / 256); Nbyte hash].

(** A backup with [buffers] pool buffers of [size] zero bytes and
    [extents] free extents. *)
Definition emptyServer (size : N) (buffers extents : nat) : Server :=
  mkServer (mkResources (replicate buffers (replicate (N.to_nat size) Byte.x00))
                        (replicate extents ExtentFree))
           ∅ size ∅.

(** ** Servers used in evaluated runs *)

(** The segment of the recovery scenario: two objects of table 1, with key
    hashes 100 and 900, and a segment header. *)
Definition s2Segment : Bytes :=
  toyEntry OBJECT 1 100 ++ toyEntry OBJECT 1 900 ++ toyEntry SEGHEADER 0 0.

(** Partition 0 is table 1, hashes 0 to 500; partition 1 is table 1, hashes
    501 to 1000. *)
Definition s2Partitions : list (list Tablet) :=
  [[mkTablet 1 0 500]; [mkTablet 1 501 1000]].

(** Segments of 16 bytes, two pool buffers, three extents. *)
Definition started : Server := emptyServer 16 2 3.

Definition opened : Server := snd (openSegment started 7 3).

Definition written : Server :=
  snd (writeSegment opened 7 3 0 12 s2Segment).

Definition closed : Server := snd (closeSegment written 7 3).

Definition recovering : Server :=
  snd (startReadingData closed 7 s2Partitions).

Definition zeros16 : Bytes := replicate 16 Byte.x00.

(** Like [recovering], but two more segments were opened after the close,
    so that the pool was empty when the recovery of master 7 started and no
    load of its segment could begin. *)
Definition starved : Server :=
  snd (startReadingData
         (snd (openSegment (snd (openSegment closed 1 1)) 1 2))
         7 s2Partitions).

End BackupServer.

(** * Properties of the failure monitor *)

Module MonitorFacts.

Import BackupFailureMonitor.

Section Steps.

Context {T W : Type} {HT : ServerTracker T} {HW : MasterSide W}.

Implicit Types s : State T W.

Lemma notify_failure_calls s id rm :
  replicaManager s = Some rm ->
  calls (notify_failure id s) =
    calls s ++ CallHandleBackupFailure id ::
      match handleBackupFailure id (world s), log s with
      | Returns _ (Some seg), Some _ => [CallAllocateHeadIfStillOn seg]
      | _, _ => []
      end.
Proof.
  intros Hrm. unfold notify_failure. rewrite Hrm.
  destruct (handleBackupFailure id (world s)) as [w1 [seg|]|w1],
    (log s) as [l|]; simpl; try done.
  destruct (allocateHeadIfStillOn seg w1); simpl; by rewrite <- app_assoc.
Qed.

Lemma notify_failure_halves s id rm :
  replicaManager s = Some rm ->
  notify_failure id s =
    match report_failure id s with
    | (s1, Some failedOpenSegment) => roll_head failedOpenSegment s1
    | (s1, None) => s1
    end.
Proof.
  intros Hrm. unfold notify_failure, report_failure, roll_head. rewrite Hrm.
  destruct (handleBackupFailure id (world s)) as [w1 r|w1]; simpl; [|done].
  by destruct (log s), r.
Qed.

Lemma roll_head_calls (r : option SegmentId) s :
  calls (roll_head r s) =
    calls s ++
      match log s, r with
      | Some _, Some seg => [CallAllocateHeadIfStillOn seg]
      | _, _ => []
      end.
Proof.
  unfold roll_head. destruct (log s), r as [seg|]; simpl;
    rewrite ?app_nil_r; try done.
  by destruct (allocateHeadIfStillOn seg (world s)).
Qed.

Lemma notify_failure_thread s id pc :
  thread s = Some pc ->
  thread (notify_failure id s) = Some pc \/
  thread (notify_failure id s) = Some Failed.
Proof.
  intros Hpc. unfold notify_failure.
  destruct (replicaManager s); [|by left].
  destruct (handleBackupFailure id (world s)) as [w1 [seg|]|w1],
    (log s); simpl; try (by left); try (by right).
  destruct (allocateHeadIfStillOn seg w1); simpl; [by left|by right].
Qed.

Lemma after_drain_calls s rm :
  replicaManager s = Some rm ->
  calls (after_drain s) = calls s ++ [CallProceed].
Proof.
  intros Hrm. unfold after_drain. rewrite Hrm.
  by destruct (proceed (world s)).
Qed.

Lemma run_stuck n s :
  thread s = Some Finished \/ thread s = Some Blocked \/
  thread s = Some Failed \/ thread s = None ->
  run n s = s.
Proof.
  intros Hs. induction n as [|n IH]; [done|].
  simpl. assert (main_step s = s) as ->; [|done].
  unfold main_step. by destruct Hs as [-> | [-> | [-> | ->]]].
Qed.

(** C1, as the code has it: when the monitor thread takes a change of kind
    SERVER_CRASHED off the tracker and its replica manager is non-null, it
    calls [replicaManager->handleBackupFailure] with the server id of the
    change, whether [log] is null or not; it then calls
    [log->allocateHeadIfStillOn], once and on the segment id returned,
    exactly when that call returned a segment id and [log] is non-null;
    it makes no other call.  [log] is read after [handleBackupFailure] has
    returned: the step is the call followed by the test and rollover on
    the state the monitor is in by then, and the rollover is made exactly
    when [log] is non-null in that state. *)
Theorem crash_event_calls s server t' rm :
  thread s = Some AtDrain ->
  getChange (tracker s) = (Some (server, SERVER_CRASHED), t') ->
  replicaManager s = Some rm ->
  calls (main_step s) =
    calls s ++ CallHandleBackupFailure (serverId server) ::
      match handleBackupFailure (serverId server) (world s), log s with
      | Returns _ (Some seg), Some _ => [CallAllocateHeadIfStillOn seg]
      | _, _ => []
      end /\
  calls (report_failure (serverId server) (set_tracker t' s)).1 =
    calls s ++ [CallHandleBackupFailure (serverId server)] /\
  main_step s =
    match report_failure (serverId server) (set_tracker t' s) with
    | (s1, Some failedOpenSegment) => roll_head failedOpenSegment s1
    | (s1, None) => s1
    end /\
  forall (failedOpenSegment : option SegmentId) s2,
    calls (roll_head failedOpenSegment s2) =
      calls s2 ++
        match log s2, failedOpenSegment with
        | Some _, Some seg => [CallAllocateHeadIfStillOn seg]
        | _, _ => []
        end.
Proof.
  intros Hpc Hchange Hrm.
  assert (main_step s = notify_failure (serverId server) (set_tracker t' s))
    as Hstep.
  { unfold main_step, drain_step. rewrite Hpc, Hchange.
    by destruct (decide (SERVER_CRASHED <> SERVER_CRASHED)) as [Hne|_];
      [destruct Hne|]. }
  split; [|split; [|split]].
  - rewrite Hstep. by rewrite (notify_failure_calls _ _ rm).
  - unfold report_failure.
    by destruct (handleBackupFailure (serverId server)
                   (world (set_tracker t' s))).
  - rewrite Hstep. by apply (notify_failure_halves _ _ rm).
  - intros r s2. apply roll_head_calls.
Qed.

(** C2: a change of any kind other than SERVER_CRASHED is taken off the
    tracker and nothing else happens: no call to the replica manager or
    the log, the master side untouched, the thread back at the head of the
    drain loop. *)
Theorem other_event_ignored s server event t' :
  thread s = Some AtDrain ->
  getChange (tracker s) = (Some (server, event), t') ->
  event <> SERVER_CRASHED ->
  main_step s = set_tracker t' s /\
  calls (main_step s) = calls s /\
  world (main_step s) = world s /\
  thread (main_step s) = Some AtDrain.
Proof.
  intros Hpc Hchange Hev.
  assert (main_step s = set_tracker t' s) as ->.
  { unfold main_step, drain_step. rewrite Hpc, Hchange.
    by destruct (decide (event <> SERVER_CRASHED)). }
  by simpl.
Qed.

(** C3: with a non-null replica manager, the step in which
    [tracker.getChange] reports no change calls
    [replicaManager->proceed()], as its only call; and the thread gets from
    the drain loop back to the top of the main loop by no other step. *)
Theorem proceed_after_drain s rm :
  thread s = Some AtDrain ->
  replicaManager s = Some rm ->
  (forall t', getChange (tracker s) = (None, t') ->
     calls (main_step s) = calls s ++ [CallProceed]) /\
  (thread (main_step s) = Some AtWait ->
     (getChange (tracker s)).1 = None /\
     calls (main_step s) = calls s ++ [CallProceed]).
Proof.
  intros Hpc Hrm. unfold main_step. rewrite Hpc. unfold drain_step.
  destruct (getChange (tracker s)) as [[[server event]|] t'] eqn:Hchange.
  - split; [intros t'' [=]|].
    destruct (decide (event <> SERVER_CRASHED)) as [Hne|_]; simpl.
    + rewrite Hpc. intros [=].
    + intros Hwait.
      destruct (notify_failure_thread (set_tracker t' s) (serverId server)
                  AtDrain Hpc) as [Hth|Hth];
        rewrite Hth in Hwait; discriminate.
  - rewrite (after_drain_calls _ rm) by done. by simpl.
Qed.

(** C4, as the code has it: the thread goes to sleep only with the replica
    manager null or idle, no change pending and [running] set; a sleeping
    thread that [halt()] wakes, with still nothing to do, returns at once
    and [halt()] completes, leaving [log] null, [running] false and no
    thread; a thread at the wait check returns when [running] is false and
    there is nothing to do; a thread that does have something to do goes
    on to the drain loop without looking at [running]; and [halt()] on a
    monitor that is not running changes nothing. *)
Theorem wait_protocol s :
  (thread s = Some AtWait ->
   thread (main_step s) = Some Blocked ->
   (replicaManager s = None \/ isIdle (world s) = true) /\
   hasChanges (tracker s) = false /\ running s = true) /\
  (running s = true ->
   thread s = Some Blocked ->
   nothing_to_do s = true ->
   forall fuel,
     halt (S fuel) s = Some (set_thread None (set_log_running None false s))) /\
  (thread s = Some AtWait ->
   running s = false ->
   nothing_to_do s = true ->
   main_step s = set_thread (Some Finished) s) /\
  (thread s = Some AtWait ->
   nothing_to_do s = false ->
   thread (main_step s) = Some AtDrain) /\
  (running s = false ->
   halt_request s = s /\ forall fuel, halt fuel s = Some s).
Proof.
  split; [|split; [|split; [|split]]].
  - intros Hpc Hblocked.
    unfold main_step in Hblocked. rewrite Hpc in Hblocked.
    unfold wait_step, nothing_to_do in Hblocked.
    destruct (replicaManager s) as [rm|];
      destruct (hasChanges (tracker s)), (running s);
      try destruct (isIdle (world s));
      simpl in Hblocked; try discriminate; auto.
  - intros Hrun Hpc Hidle fuel. unfold halt, halt_request.
    rewrite Hrun. simpl. unfold notify_one. simpl. rewrite Hpc.
    unfold join. simpl.
    set (s1 := set_thread (Some AtWait) (set_log_running None false s)).
    assert (main_step s1 = set_thread (Some Finished) s1) as ->.
    { unfold main_step, wait_step. simpl.
      assert (nothing_to_do s1 = true) as -> by exact Hidle. done. }
    rewrite run_stuck by (by left). done.
  - intros Hpc Hrun Hidle. unfold main_step, wait_step.
    by rewrite Hpc, Hidle, Hrun.
  - intros Hpc Hbusy. unfold main_step, wait_step. by rewrite Hpc, Hbusy.
  - intros Hrun. split.
    + unfold halt_request. by rewrite Hrun.
    + intros fuel. unfold halt. by rewrite Hrun.
Qed.

(** C10: [serverIsUp] answers true exactly when the mutex was acquired
    and the tracker's lookup returned details whose status is UP.  So a
    true answer is always accurate, and the answer is false when the
    lookup returns NULL, returns another status or throws, and when the
    mutex could not be taken without blocking. *)
Theorem serverIsUp_true_iff (locked : bool) s (id : ServerId) :
  serverIsUp locked s id = true <->
  locked = true /\
  exists d, getServerDetails (tracker s) id = LookupFound d /\ status d = UP.
Proof.
  unfold serverIsUp. destruct locked; simpl.
  - destruct (getServerDetails (tracker s) id) as [| |d] eqn:Hlook.
    + split; [done|]. by intros [_ (d & [=] & _)].
    + split; [done|]. by intros [_ (d & [=] & _)].
    + destruct (decide (status d <> UP)) as [Hne|Heq].
      * split; [done|]. intros [_ (d' & [= <-] & Hup)]. by destruct Hne.
      * split; [|done]. intros _. split; [done|]. exists d. split; [done|].
        by destruct (status d); [|destruct Heq..].
  - split; [done|]. by intros [[=] _].
Qed.

End Steps.

Section Queue.

Context {W : Type} {HW : MasterSide W}.

(** Draining a whole queue of changes, with a master side that does not
    throw: the calls to [handleBackupFailure] are, in order, one for each
    crash in the queue, with its server id, and none for any other
    change. *)
Lemma drain_queue_calls (q : list (ServerDetails * ServerChangeEvent)) :
  forall (s : State QueueTracker W) rm,
    thread s = Some AtDrain ->
    pending (tracker s) = q ->
    replicaManager s = Some rm ->
    (forall id w, exists w' r, handleBackupFailure id w = Returns w' r) ->
    (forall seg w, exists w', allocateHeadIfStillOn seg w = Returns w' tt) ->
    thread (run (length q) s) = Some AtDrain /\
    pending (tracker (run (length q) s)) = [] /\
    List.filter isFailureCall (calls (run (length q) s)) =
      List.filter isFailureCall (calls s) ++
      map (fun c => CallHandleBackupFailure (serverId c.1))
          (List.filter isCrash q).
Proof.
  induction q as [|[server event] q IH]; intros s rm Hpc Hq Hrm Hhbf Halloc.
  - simpl. by rewrite app_nil_r.
  - simpl run.
    assert (thread (main_step s) = Some AtDrain /\
            pending (tracker (main_step s)) = q /\
            replicaManager (main_step s) = Some rm /\
            List.filter isFailureCall (calls (main_step s)) =
              List.filter isFailureCall (calls s) ++
              (if isCrash (server, event)
               then [CallHandleBackupFailure (serverId server)] else []))
      as (Hpc' & Hq' & Hrm' & Hcalls).
    { unfold main_step, drain_step. rewrite Hpc. simpl. rewrite Hq.
      unfold isCrash. simpl.
      destruct (decide (event <> SERVER_CRASHED)) as [Hne|Heq].
      - rewrite bool_decide_eq_false_2 by done. simpl.
        by rewrite app_nil_r.
      - assert (event = SERVER_CRASHED) as ->
          by (destruct event; try done; by destruct Heq).
        rewrite bool_decide_eq_true_2 by done.
        unfold notify_failure. simpl. rewrite Hrm.
        destruct (Hhbf (serverId server) (world s)) as (w1 & r & ->).
        destruct (log s), r as [seg|]; simpl;
          try destruct (Halloc seg w1) as (w2 & ->); simpl;
          rewrite ?List.filter_app; simpl;
          rewrite ?app_nil_r, <- ?app_assoc; done. }
    destruct (IH (main_step s) rm Hpc' Hq' Hrm' Hhbf Halloc)
      as (Hpc'' & Hq'' & Hcalls'').
    split; [done|]. split; [done|].
    rewrite Hcalls'', Hcalls. simpl.
    destruct (isCrash (server, event)); simpl;
      by rewrite <- ?app_assoc, ?app_nil_r.
Qed.

End Queue.

(** Witness of [crash_event_calls]: the crash of backup 42, holder of the
    replica of head segment 17, handled with log 5, handled after a halt
    has reset the log, and handled with the halt landing between the call
    of [handleBackupFailure] and the test of [log]. *)
Lemma crash_event_calls_witness :
  calls (main_step draining) =
    [CallHandleBackupFailure 42%N; CallAllocateHeadIfStillOn 17%N] /\
  calls (main_step haltedDraining) = [CallHandleBackupFailure 42%N] /\
  calls (roll_head (Some 17%N)
           (halt_request
              (report_failure 42%N
                 (set_tracker (mkQueueTracker [] (table crashOf42))
                              draining)).1))
    = [CallHandleBackupFailure 42%N].
Proof.
  split; [|split].
  - exact (proj1 (crash_event_calls draining (mkServerDetails 42%N CRASHED)
                    (mkQueueTracker [] (table crashOf42)) 1%N
                    eq_refl eq_refl eq_refl)).
  - exact (proj1 (crash_event_calls haltedDraining
                    (mkServerDetails 42%N CRASHED)
                    (mkQueueTracker [] (table crashOf42)) 1%N
                    eq_refl eq_refl eq_refl)).
  - exact (proj2 (proj2 (proj2
             (crash_event_calls draining (mkServerDetails 42%N CRASHED)
                (mkQueueTracker [] (table crashOf42)) 1%N
                eq_refl eq_refl eq_refl)))
             (Some 17%N)
             (halt_request
                (report_failure 42%N
                   (set_tracker (mkQueueTracker [] (table crashOf42))
                                draining)).1)).
Defined.

(** C1 as stated fails: a monitor constructed with a replica manager and
    started with log 5 is halted before its thread has drained the tracker.
    [halt()] has reset [log] to NULL, so the thread, which still drains the
    pending crash of backup 42, calls [handleBackupFailure(42)], gets
    segment 17 back, and does not call [allocateHeadIfStillOn]. *)
Lemma halted_monitor_skips_rollover :
  ~ (forall (l : Ptr) (acts : list Action)
       (s : State QueueTracker SimMaster) server t' rm,
       exec (ActStart (Some l) :: acts) fresh = Some s ->
       thread s = Some AtDrain ->
       getChange (tracker s) = (Some (server, SERVER_CRASHED), t') ->
       replicaManager s = Some rm ->
       calls (main_step s) =
         calls s ++ CallHandleBackupFailure (serverId server) ::
           match handleBackupFailure (serverId server) (world s) with
           | Returns _ (Some seg) => [CallAllocateHeadIfStillOn seg]
           | _ => []
           end).
Proof.
  intros Hclaim.
  specialize (Hclaim 5%N [ActHaltRequest; ActMainStep]
    (mkState (Some 1%N) None false (Some AtDrain) crashOf42 master17 [])
    (mkServerDetails 42%N CRASHED) (mkQueueTracker [] (table crashOf42)) 1%N
    eq_refl eq_refl eq_refl eq_refl).
  vm_compute in Hclaim. discriminate Hclaim.
Qed.

(** The run behind [halted_monitor_skips_rollover], to its end. *)
Example halted_monitor_run :
  ((fun s => (thread s, calls s)) <$>
    exec [ActStart (Some 5%N); ActHaltRequest; ActMainStep; ActMainStep;
          ActMainStep; ActMainStep] fresh)
  = Some (Some Finished, [CallHandleBackupFailure 42%N; CallProceed]).
Proof. reflexivity. Qed.

(** The same monitor left running: the rollover of scenario S3. *)
Example started_monitor_run :
  ((fun s => (thread s, calls s)) <$>
    exec [ActStart (Some 5%N); ActMainStep; ActMainStep; ActMainStep;
          ActMainStep] fresh)
  = Some (Some Blocked,
          [CallHandleBackupFailure 42%N; CallAllocateHeadIfStillOn 17%N;
           CallProceed]).
Proof. reflexivity. Qed.

(** Witness of [other_event_ignored]: the arrival of server 8. *)
Lemma other_event_ignored_witness :
  calls (main_step joining) = [] /\
  world (main_step joining) = master17 /\
  thread (main_step joining) = Some AtDrain.
Proof.
  exact (proj2 (other_event_ignored joining (mkServerDetails 8%N UP)
     SERVER_ADDED
     (mkQueueTracker [(mkServerDetails 42%N CRASHED, SERVER_CRASHED)] [])
     eq_refl eq_refl (fun e => match e with end) )).
Defined.

(** Witness of [proceed_after_drain]: an empty tracker. *)
Lemma proceed_after_drain_witness :
  calls (main_step drained) = [CallHandleBackupFailure 42%N; CallProceed].
Proof.
  exact (proj1 (proceed_after_drain drained 1%N eq_refl eq_refl)
           (mkQueueTracker [] []) eq_refl).
Defined.

Lemma busy_monitor_runs n :
  forall s : State QueueTracker SimMaster,
    replicaManager s = Some 1%N ->
    world s = mkSimMaster true 17%N 42%N false ->
    tracker s = mkQueueTracker [] [] ->
    thread s = Some AtWait \/ thread s = Some AtDrain ->
    thread (run n s) = Some AtWait \/ thread (run n s) = Some AtDrain.
Proof.
  induction n as [|n IH]; intros s Hrm Hw Ht Hpc; [done|].
  simpl. destruct s as [rm lg rn th tr w cs]. simpl in *. subst.
  destruct Hpc as [-> | ->]; apply IH; simpl; auto.
Qed.

(** C4 as stated fails: with a replica manager that stays busy, the thread
    never reaches the test of [running], so it does not return however
    long [halt()] waits in [join]. *)
Lemma busy_monitor_survives_halt :
  ~ (forall s : State QueueTracker SimMaster,
       running s = true ->
       thread s = Some AtWait ->
       exists n, thread (run n (halt_request s)) = Some Finished).
Proof.
  intros Hclaim.
  destruct (Hclaim busyMonitor eq_refl eq_refl) as [n Hn].
  destruct (busy_monitor_runs n (halt_request busyMonitor)
              eq_refl eq_refl eq_refl (or_introl eq_refl)) as [Hpc|Hpc];
    rewrite Hpc in Hn; discriminate Hn.
Qed.

(** Witness of [wait_protocol]: an idle monitor goes to sleep, a sleeping
    one is halted in one step of its thread, a busy one goes on to drain,
    and halting a monitor that was never started changes nothing. *)
Lemma wait_protocol_witness :
  ((replicaManager idle = None \/ isIdle (world idle) = true) /\
   hasChanges (tracker idle) = false /\ running idle = true) /\
  halt 1 sleeping =
    Some (set_thread None (set_log_running None false sleeping)) /\
  main_step (halt_request sleeping)
    = set_thread (Some Finished) (halt_request sleeping) /\
  thread (main_step busyMonitor) = Some AtDrain /\
  (halt_request fresh = fresh /\ forall fuel, halt fuel fresh = Some fresh).
Proof.
  split; [|split; [|split; [|split]]].
  - exact (proj1 (wait_protocol idle) eq_refl eq_refl).
  - exact (proj1 (proj2 (wait_protocol sleeping)) eq_refl eq_refl eq_refl 0).
  - exact (proj1 (proj2 (proj2 (wait_protocol (halt_request sleeping))))
             eq_refl eq_refl eq_refl).
  - exact (proj1 (proj2 (proj2 (proj2 (wait_protocol busyMonitor))))
             eq_refl eq_refl).
  - exact (proj2 (proj2 (proj2 (proj2 (wait_protocol fresh)))) eq_refl).
Defined.

(** [serverIsUp] on the three kinds of table entry, and without the
    mutex. *)
Example serverIsUp_cases :
  serverIsUp true fresh 7%N = true /\
  serverIsUp false fresh 7%N = false /\
  serverIsUp true fresh 42%N = false /\
  serverIsUp true fresh 99%N = false /\
  serverIsUp true fresh 1000%N = false.
Proof. by vm_compute. Qed.

End MonitorFacts.

(** * Properties of the segment life cycle and the recovery read *)

Module BackupFacts.

Import BackupServer.

Local Open Scope N_scope.

(** ** Copying into the staging buffer *)

Lemma copyIn_full (buf data : Bytes) (off len : nat) :
  length data = len ->
  copyIn buf off len data = take off buf ++ data ++ drop (off + len)%nat buf.
Proof. intros <-. unfold copyIn. by rewrite firstn_all. Qed.

Lemma copyIn_length (buf data : Bytes) (off len : nat) :
  length data = len -> (off + len <= length buf)%nat ->
  length (copyIn buf off len data) = length buf.
Proof.
  intros Hd Hb. rewrite copyIn_full by done.
  rewrite !length_app, length_take, length_drop. lia.
Qed.

Lemma copyIn_inside (buf data : Bytes) (off len i : nat) :
  length data = len -> (off + len <= length buf)%nat -> (i < len)%nat ->
  copyIn buf off len data !! (off + i)%nat = data !! i.
Proof.
  intros Hd Hb Hi. rewrite copyIn_full by done.
  rewrite lookup_app_r; rewrite length_take; [|lia].
  replace (off + i - off `min` length buf)%nat with i by lia.
  apply lookup_app_l. lia.
Qed.

Lemma copyIn_outside (buf data : Bytes) (off len j : nat) :
  length data = len -> (off + len <= length buf)%nat ->
  (j < off \/ off + len <= j)%nat ->
  copyIn buf off len data !! j = buf !! j.
Proof.
  intros Hd Hb [Hj|Hj]; rewrite copyIn_full by done.
  - rewrite lookup_app_l by (rewrite length_take; lia).
    by rewrite lookup_take_lt.
  - rewrite lookup_app_r; rewrite length_take; [|lia].
    rewrite lookup_app_r by lia.
    rewrite lookup_drop. f_equal. lia.
Qed.

(** ** One replica *)



(** The invariants of the data model hold of a new replica and survive
    every operation, the start of a load and the hand-out of the buffer. *)
Ltac invariant_cases :=
  repeat case_match; simplify_eq/=; try congruence;
  repeat match goal with
  | |- _ /\ _ => split
  | |- is_Some (Some _) => by eexists
  | |- is_Some None -> _ => by intros []
  | |- is_Some ?x =>
      match goal with Hx : x = Some _ |- _ => rewrite Hx end
  | Hc : _ /\ _ |- _ => destruct Hc
  end; try done; try congruence.

Lemma invariant_new m s : invariant (newSegmentInfo m s).
Proof. by unfold invariant. Qed.

Lemma invariant_apply_op size op c :
  invariant c.1 -> invariant (apply_op size op c).2.1.
Proof.
  destruct c as [info r], op as [|off len data| |]; simpl;
    unfold invariant, open, write, close, free;
    destruct (state info) eqn:E; simpl; intros Hinv; invariant_cases.
Qed.

Lemma invariant_startLoading info r :
  invariant info -> invariant (startLoading info r).1.2.
Proof.
  unfold invariant, startLoading.
  destruct (state info) eqn:E; simpl; intros Hinv; invariant_cases.
Qed.

Lemma invariant_getSegment info st :
  invariant info -> invariant (getSegment info st).2.
Proof.
  unfold invariant, getSegment.
  destruct (state info) eqn:E; simpl; intros Hinv; invariant_cases.
Qed.








Example key_states :
  observedKey 7 3 [OpOpen; OpFree] started = [UNINIT; OPEN; FREED] /\
  observedKey 7 3 [OpOpen; OpClose; OpFree; OpOpen] started
  = [UNINIT; OPEN; CLOSED; FREED; OPEN].
Proof. by vm_compute. Qed.

(** The same on one replica: open followed by free skips CLOSED. *)
Lemma free_skips_closed :
  ~ (forall ops : list Op,
       chain_prefix
         (observed 16 ops (newSegmentInfo 7 3, resources started)) = true).
Proof.
  intros Hclaim. specialize (Hclaim [OpOpen; OpFree]).
  vm_compute in Hclaim. discriminate Hclaim.
Qed.

Example open_free_states :
  observed 16 [OpOpen; OpFree] (newSegmentInfo 7 3, resources started)
  = [UNINIT; OPEN; FREED].
Proof. reflexivity. Qed.

Example open_write_close_free_states :
  observed 16 [OpOpen; OpWrite 0 12 s2Segment; OpClose; OpClose; OpFree]
           (newSegmentInfo 7 3, resources started)
  = [UNINIT; OPEN; OPEN; CLOSED; CLOSED; FREED].
Proof. reflexivity. Qed.

Section Handlers.

Context {format : LogFormat}.

Lemma set_segment_same srv m s info :
  findSegmentInfo srv m s = Some info ->
  set_segment m s info (resources srv) srv = srv.
Proof.
  intros Hfind. destruct srv as [r segs sz rec]. unfold set_segment. simpl.
  f_equal. by apply insert_id.
Qed.

(** C5: opening a replica that is OPEN answers OK and changes nothing, in
    the replica (state, buffer, handle) or in pool and storage; opening a
    CLOSED one fails with AlreadyClosed and a FREED one with Freed.  The
    same holds of [openSegment] on the registry entry of
    [(masterId, segmentId)]: the server is left as it was. *)
Theorem open_is_idempotent (srv : Server) (m s : N) (info : SegmentInfo)
    (r : Resources) :
  (state info = OPEN -> open info r = (OK, info, r)) /\
  (state info = CLOSED -> open info r = (SegmentAlreadyClosed, info, r)) /\
  (state info = FREED -> open info r = (SegmentFreed, info, r)) /\
  (findSegmentInfo srv m s = Some info ->
     (state info = OPEN -> openSegment srv m s = (OK, srv)) /\
     (state info = CLOSED ->
        openSegment srv m s = (SegmentAlreadyClosed, srv)) /\
     (state info = FREED -> openSegment srv m s = (SegmentFreed, srv))).
Proof.
  unfold openSegment, open.
  split; [|split; [|split]]; try (by intros ->).
  intros Hfind. rewrite Hfind. simpl.
  split; [|split]; intros Hst; rewrite Hst; [|done..].
  by rewrite set_segment_same.
Qed.

(** C6: a write to an OPEN replica, whose buffer has [segmentSize] bytes,
    of [length] bytes at [offset] succeeds exactly when
    [offset + length <= segmentSize].  When it does, the buffer holds the
    written bytes from [offset] on and its old bytes everywhere else, and
    keeps its size; state and handle are as before.  When
    [offset + length > segmentSize] the write fails with BadRequest and the
    server, the buffer included, is unchanged. *)
Theorem write_within_segment srv m s offset len data info buf :
  findSegmentInfo srv m s = Some info ->
  state info = OPEN ->
  segment info = Some buf ->
  length buf = N.to_nat (segmentSize srv) ->
  length data = N.to_nat len ->
  (fst (writeSegment srv m s offset len data) = OK <->
   offset + len <= segmentSize srv) /\
  (offset + len <= segmentSize srv ->
   exists info' buf',
     findSegmentInfo (snd (writeSegment srv m s offset len data)) m s
       = Some info' /\
     segment info' = Some buf' /\
     state info' = OPEN /\
     storageHandle info' = storageHandle info /\
     length buf' = length buf /\
     (forall i, (i < N.to_nat len)%nat ->
        buf' !! (N.to_nat offset + i)%nat = data !! i) /\
     (forall j,
        (j < N.to_nat offset \/ N.to_nat offset + N.to_nat len <= j)%nat ->
        buf' !! j = buf !! j)) /\
  (segmentSize srv < offset + len ->
   writeSegment srv m s offset len data = (BadRequest, srv)).
Proof.
  intros Hfind Hopen Hbuf Hsize Hdata.
  unfold writeSegment, write. rewrite Hfind. simpl. rewrite Hopen, Hbuf.
  destruct (N.ltb_spec (segmentSize srv) (offset + len)) as [Hlt|Hle]; simpl.
  - split; [|split]; [split| |]; try done; intros; lia.
  - split; [|split]; [done| |intros; lia].
    intros _. eexists _, _. unfold findSegmentInfo. simpl.
    rewrite lookup_insert_eq. split; [done|]. simpl.
    split; [done|]. split; [done|]. split; [done|].
    assert (N.to_nat offset + N.to_nat len <= length buf)%nat by lia.
    split; [by apply copyIn_length|]. split.
    + intros i Hi. by apply copyIn_inside.
    + intros j Hj. by apply copyIn_outside.
Qed.

(** ** Recovery reads *)

Lemma getSegment_again info st buf info' :
  getSegment info st = (inl buf, info') ->
  getSegment info' st = (inl buf, info') /\ state info' = state info /\
  segment info' = Some buf.
Proof.
  unfold getSegment. intros Hget.
  destruct (state info) eqn:Hst; try done.
  - destruct (segment info) eqn:Hbuf; simplify_eq. by rewrite Hst, Hbuf.
  - destruct (segmentSync info) as [h|] eqn:Hsync.
    + destruct (storage_read h st) eqn:Hread; simplify_eq. done.
    + destruct (segment info) eqn:Hbuf; simplify_eq.
      by rewrite Hst, Hsync, Hbuf.
Qed.

Lemma getRecoveryData_ok srv m s p partitions tablets info buf info' :
  recoveries srv !! m = Some partitions ->
  partitions !! p = Some tablets ->
  findSegmentInfo srv m s = Some info ->
  state info <> FREED ->
  getSegment info (storage (resources srv)) = (inl buf, info') ->
  getRecoveryData srv m s p =
    (mkResponse OK (length (appendKept tablets (decodeEntries buf) []))
                (appendKept tablets (decodeEntries buf) []),
     set_segment m s info' (resources srv) srv).
Proof.
  intros Hrec Hpart Hfind Hlive Hget. unfold getRecoveryData.
  rewrite Hrec, Hpart, Hfind, Hget.
  by destruct (decide (state info = FREED)).
Qed.


(** What a successful read was computed from. *)
Lemma getRecoveryData_inv srv m s p r srv' :
  getRecoveryData srv m s p = (r, srv') ->
  status r = OK ->
  exists partitions tablets info buf info',
    recoveries srv !! m = Some partitions /\
    partitions !! p = Some tablets /\
    findSegmentInfo srv m s = Some info /\
    state info <> FREED /\
    getSegment info (storage (resources srv)) = (inl buf, info').
Proof.
  unfold getRecoveryData. intros Hcall Hok.
  destruct (recoveries srv !! m) as [partitions|] eqn:Hrec;
    [|by simplify_eq].
  destruct (partitions !! p) as [tablets|] eqn:Hpart; [|by simplify_eq].
  destruct (findSegmentInfo srv m s) as [info|] eqn:Hfind; [|by simplify_eq].
  destruct (decide (state info = FREED)) as [Hfreed|Hlive]; [by simplify_eq|].
  destruct (getSegment info (storage (resources srv)))
    as [[buf|err] info'] eqn:Hget; [|by simplify_eq].
  by exists partitions, tablets, info, buf, info'.
Qed.



Lemma keptEntries_filter tablets entries acc :
  keptEntries tablets entries acc =
    acc ++ filter (fun e => keepEntry (entryType e) (entryBytes e) tablets
                            = true) entries.
Proof.
  revert acc. induction entries as [|e rest IH]; intros acc; simpl.
  - by rewrite app_nil_r.
  - rewrite filter_cons.
    destruct (keepEntry (entryType e) (entryBytes e) tablets) eqn:Hkeep.
    + rewrite decide_True by done. rewrite IH. by rewrite <- app_assoc.
    + rewrite decide_False by done. apply IH.
Qed.

Lemma appendKept_frames tablets entries response :
  appendKept tablets entries response =
    response ++ mjoin (frame <$> keptEntries tablets entries []).
Proof.
  revert response. induction entries as [|e rest IH]; intros response; simpl.
  - by rewrite app_nil_r.
  - destruct (keepEntry (entryType e) (entryBytes e) tablets); [|apply IH].
    rewrite IH. rewrite (keptEntries_filter _ _ [e]), keptEntries_filter.
    simpl. by rewrite <- app_assoc.
Qed.

Lemma inAnyTablet_iff table hash tablets :
  inAnyTablet table hash tablets = true <->
  exists t, t ∈ tablets /\ tableId t = table /\
            firstKeyHash t <= hash <= lastKeyHash t.
Proof.
  induction tablets as [|t rest IH]; simpl.
  - split; [done|]. intros (t & Hin & _). by apply elem_of_nil in Hin.
  - destruct (inTablet table hash t) eqn:Hin.
    + split; [|done]. intros _. exists t. split; [left|].
      unfold inTablet in Hin. apply andb_true_iff in Hin as [Hin H3].
      apply andb_true_iff in Hin as [H1 H2].
      apply N.eqb_eq in H1. apply N.leb_le in H2, H3. done.
    + rewrite IH. split.
      * intros (t' & Hel & Ht'). exists t'. split; [by right|done].
      * intros (t' & Hel & Htab & Hlo & Hhi).
        apply elem_of_cons in Hel as [->|Hel]; [|by exists t'].
        unfold inTablet in Hin. rewrite Htab, N.eqb_refl in Hin.
        apply N.leb_le in Hlo, Hhi. rewrite Hlo, Hhi in Hin. done.
Qed.

Lemma keepEntry_iff e tablets :
  keepEntry (entryType e) (entryBytes e) tablets = true <->
  inPartition e tablets.
Proof.
  unfold keepEntry, inPartition.
  destruct (tabletIndependent (entryType e)); [by split; auto|].
  destruct (objectKey (entryBytes e)) as [table hash]. simpl.
  rewrite inAnyTablet_iff. split; [by right|]. by intros [?|?].
Qed.

(** C9: a successful recovery read of partition [partitionIndex] answers
    with the frames (type tag, length, payload) of the kept entries, one
    after the other; the kept entries are those entries of the segment's
    buffer, in their original order and as often as they occur, that are
    tablet-independent metadata or whose table id and key hash lie in some
    tablet of that partition. *)
Theorem recovery_read_filters srv m s partitionIndex r srv' :
  getRecoveryData srv m s partitionIndex = (r, srv') ->
  status r = OK ->
  exists partitions tablets info buf kept,
    recoveries srv !! m = Some partitions /\
    partitions !! partitionIndex = Some tablets /\
    findSegmentInfo srv' m s = Some info /\
    segment info = Some buf /\
    kept = filter (fun e => keepEntry (entryType e) (entryBytes e) tablets
                            = true) (decodeEntries buf) /\
    kept `sublist_of` decodeEntries buf /\
    (forall e, e ∈ kept <-> e ∈ decodeEntries buf /\ inPartition e tablets) /\
    payload r = mjoin (frame <$> kept) /\
    byteCount r = length (payload r).
Proof.
  intros Hcall Hok.
  destruct (getRecoveryData_inv _ _ _ _ _ _ Hcall Hok)
    as (partitions & tablets & info & buf & info' &
        Hrec & Hpart & Hfind & Hlive & Hget).
  destruct (getSegment_again _ _ _ _ Hget) as (_ & _ & Hbuf).
  rewrite (getRecoveryData_ok _ _ _ _ _ _ _ _ _ Hrec Hpart Hfind Hlive Hget)
    in Hcall.
  simplify_eq.
  exists partitions, tablets, info', buf,
    (keptEntries tablets (decodeEntries buf) []).
  rewrite keptEntries_filter. simpl.
  split; [done|]. split; [done|].
  split; [unfold findSegmentInfo; simpl; by rewrite lookup_insert_eq|].
  split; [done|]. split; [done|]. split; [apply sublist_filter|].
  split; [|split].
  - intros e. rewrite list_elem_of_filter, keepEntry_iff. tauto.
  - by rewrite appendKept_frames, keptEntries_filter.
  - done.
Qed.

End Handlers.

(** ** Evaluated runs *)

(** Witness of [open_is_idempotent]: the replica of segment 3 of master 7
    once open and once closed, and a freed replica. *)
Lemma open_is_idempotent_witness :
  openSegment opened 7 3 = (OK, opened) /\
  openSegment closed 7 3 = (SegmentAlreadyClosed, closed) /\
  open (mkSegmentInfo 7 3 None None FREED None) (resources started)
    = (SegmentFreed, mkSegmentInfo 7 3 None None FREED None,
       resources started).
Proof.
  split; [|split].
  - destruct (open_is_idempotent opened 7 3
                (mkSegmentInfo 7 3 (Some zeros16) None OPEN (Some 0%nat))
                (resources opened)) as (_ & _ & _ & Hsrv).
    destruct Hsrv as (Hopen & _ & _); [vm_compute; reflexivity|].
    apply Hopen. reflexivity.
  - destruct (open_is_idempotent closed 7 3
                (mkSegmentInfo 7 3 None None CLOSED (Some 0%nat))
                (resources closed)) as (_ & _ & _ & Hsrv).
    destruct Hsrv as (_ & Hclosed & _); [vm_compute; reflexivity|].
    apply Hclosed. reflexivity.
  - destruct (open_is_idempotent started 7 3
                (mkSegmentInfo 7 3 None None FREED None)
                (resources started)) as (_ & _ & Hfreed & _).
    apply Hfreed. reflexivity.
Defined.

(** Witness of [write_within_segment]: twelve bytes into a segment of
    sixteen, at offset 4 (up to the last byte) and at offset 5 (one byte
    too far). *)
Lemma write_within_segment_witness :
  fst (writeSegment opened 7 3 4 12 s2Segment) = OK /\
  writeSegment opened 7 3 5 12 s2Segment = (BadRequest, opened).
Proof.
  split.
  - destruct (write_within_segment opened 7 3 4 12 s2Segment
                (mkSegmentInfo 7 3 (Some zeros16) None OPEN (Some 0%nat))
                zeros16) as (Hiff & _ & _);
      [vm_compute; reflexivity..|].
    apply Hiff. vm_compute. discriminate.
  - destruct (write_within_segment opened 7 3 5 12 s2Segment
                (mkSegmentInfo 7 3 (Some zeros16) None OPEN (Some 0%nat))
                zeros16) as (_ & _ & Hfail);
      [vm_compute; reflexivity..|].
    apply Hfail. vm_compute. reflexivity.
Defined.

(** Witness of [recovery_read_filters], the recovery scenario of the
    design: of the objects with key hashes 100 and 900 and the segment
    header, partition 0 (hashes 0 to 500) gets the first object and the
    header. *)
Lemma recovery_read_filters_witness :
  payload (getRecoveryData recovering 7 3 0).1 =
    mjoin (frame <$> [mkLogEntry OBJECT [Byte.x01; Byte.x00; Byte.x64];
                      mkLogEntry SEGHEADER [Byte.x00; Byte.x00; Byte.x00]]).
Proof.
  destruct (recovery_read_filters recovering 7 3 0%nat _ _
              (surjective_pairing _))
    as (partitions & tablets & info & buf & kept &
        Hrec & Hpart & Hfind & Hbuf & Hkept & _ & _ & Hpayload & _);
    [vm_compute; reflexivity|].
  vm_compute in Hrec. injection Hrec as <-.
  vm_compute in Hpart. injection Hpart as <-.
  vm_compute in Hfind. injection Hfind as <-.
  vm_compute in Hbuf. injection Hbuf as <-.
  vm_compute in Hkept. rewrite Hpayload, Hkept. reflexivity.
Defined.



Example starved_server :
  (getRecoveryData starved 7 3 0).1 = failure SegmentUnavailable /\
  status (getRecoveryData recovering 7 3 0).1 = OK /\
  length (payload (getRecoveryData recovering 7 3 0).1) = 16%nat /\
  persisted starved 7 3 = persisted recovering 7 3.
Proof. by vm_compute. Qed.

(** Scenario S1: open, write, close, free; the key leaves the registry
    and both pool buffers are free again. *)
Example open_write_close_free :
  fst (openSegment started 7 3) = OK /\
  fst (writeSegment opened 7 3 0 12 s2Segment) = OK /\
  fst (closeSegment written 7 3) = OK /\
  fst (freeSegment closed 7 3) = OK /\
  findSegmentInfo (snd (freeSegment closed 7 3)) 7 3 = None /\
  length (pool (resources (snd (freeSegment closed 7 3)))) = 2%nat.
Proof. by vm_compute. Qed.

(** Scenario S2: the two partitions of the recovery read. *)
Example recovery_partitions :
  let entry t table hash := frame (mkLogEntry t [Nbyte table;
                                                Nbyte (hash / 256);
                                                Nbyte hash]) in
  (getRecoveryData recovering 7 3 0).1 =
    mkResponse OK 16 (entry OBJECT 1 100 ++ entry SEGHEADER 0 0) /\
  (getRecoveryData recovering 7 3 1).1 =
    mkResponse OK 16 (entry OBJECT 1 900 ++ entry SEGHEADER 0 0) /\
  (startReadingData closed 7 s2Partitions).1 = (OK, [3]) /\
  status (getRecoveryData closed 7 3 0).1 = BadRequest /\
  status (getRecoveryData recovering 7 3 2).1 = BadRequest /\
  status (getRecoveryData recovering 7 4 0).1 = SegmentUnavailable.
Proof. by vm_compute. Qed.

(** Scenario S4: a pool of two buffers, exhausted by the third open and
    replenished by a free. *)
Example pool_exhaustion :
  let s1 := snd (openSegment started 1 1) in
  let s2 := snd (openSegment s1 1 2) in
  let s3 := snd (freeSegment s2 1 1) in
  fst (openSegment started 1 1) = OK /\
  fst (openSegment s1 1 2) = OK /\
  openSegment s2 1 3 = (PoolExhausted, s2) /\
  fst (freeSegment s2 1 1) = OK /\
  fst (openSegment s3 1 3) = OK.
Proof. by vm_compute. Qed.

(** Scenarios S5 and S6: after close the buffer is gone and a second
    close changes nothing; the recovery read reloads the segment. *)
Example reload_after_close :
  (segment <$> findSegmentInfo closed 7 3) = Some None /\
  closeSegment closed 7 3 = (OK, closed) /\
  (segmentSync <$> findSegmentInfo recovering 7 3) = Some (Some 0%nat) /\
  (segment <$> findSegmentInfo (getRecoveryData recovering 7 3 0).2 7 3)
    = Some (Some (s2Segment ++ replicate 4 Byte.x00)).
Proof. by vm_compute. Qed.

End BackupFacts.

(** * Further properties of the failure monitor *)

Module MonitorExtras.

Import BackupFailureMonitor.

Section Fields.

Context {T W : Type} {HT : ServerTracker T} {HW : MasterSide W}.

Implicit Types s : State T W.

(** [main] only reads [replicaManager], [log] and [running]; [start] and
    [halt] are the ones to write them. *)
Lemma notify_failure_fields s id :
  replicaManager (notify_failure id s) = replicaManager s /\
  log (notify_failure id s) = log s /\
  running (notify_failure id s) = running s /\
  tracker (notify_failure id s) = tracker s.
Proof.
  unfold notify_failure. repeat case_match; simpl; done.
Qed.

Lemma notify_failure_thread_cases s id :
  thread (notify_failure id s) = thread s \/
  thread (notify_failure id s) = Some Failed.
Proof.
  unfold notify_failure. repeat case_match; simpl; auto.
Qed.

Lemma main_step_fields s :
  replicaManager (main_step s) = replicaManager s /\
  log (main_step s) = log s /\
  running (main_step s) = running s.
Proof.
  unfold main_step. destruct (thread s) as [[]|]; try done.
  - unfold wait_step. repeat case_match; done.
  - unfold drain_step.
    destruct (getChange (tracker s)) as [[[server event]|] t'].
    + destruct (decide (event <> SERVER_CRASHED)); [done|].
      destruct (notify_failure_fields (set_tracker t' s) (serverId server))
        as (-> & -> & -> & _).
      done.
    + unfold after_drain. repeat case_match; done.
Qed.

Lemma run_fields n s :
  replicaManager (run n s) = replicaManager s /\
  log (run n s) = log s /\
  running (run n s) = running s.
Proof.
  revert s. induction n as [|n IH]; intros s; [done|]. simpl.
  destruct (IH (main_step s)) as (-> & -> & ->). apply main_step_fields.
Qed.

Lemma run_finished n s : thread s = Some Finished -> run n s = s.
Proof.
  intros Hs. induction n as [|n IH]; [done|].
  simpl. unfold main_step. by rewrite Hs.
Qed.

(** ** start *)

(** X1: a second [start] with the same log has no effect: whatever state
    [start(log)] leaves, [start(log)] on that state leaves it as it is. *)
Theorem start_again l s s1 :
  start l s = Some s1 -> start l s1 = Some s1.
Proof.
  unfold start. intros Hstart.
  destruct (log s) as [l0|] eqn:Hlog.
  - destruct (decide (l = Some l0)) as [->|]; [|done].
    destruct (running s) eqn:Hrun; simplify_eq; simpl.
    + rewrite Hlog. rewrite decide_True by done. by rewrite Hrun.
    + by rewrite decide_True.
  - destruct (running s) eqn:Hrun; simplify_eq; simpl.
    + by rewrite Hlog, Hrun.
    + destruct l as [l0|]; [by rewrite decide_True|done].
Qed.

(** X3: until [start] is called nothing is dispatched: on a monitor with
    no thread and [running] false, notifications from the tracker, [halt]
    and steps of a thread that does not exist change nothing. *)
Theorem nothing_before_start (acts : list Action) s :
  thread s = None ->
  running s = false ->
  forallb (fun a => negb (isStart a)) acts = true ->
  exec acts s = Some s.
Proof.
  intros Hpc Hrun. induction acts as [|a rest IH]; [done|].
  simpl. intros Hacts. apply andb_true_iff in Hacts as [Ha Hrest].
  destruct a as [l| | |]; simpl in *; try done.
  - unfold halt_request. rewrite Hrun. simpl. by apply IH.
  - unfold trackerChangesEnqueued, notify_one. rewrite Hpc. by apply IH.
  - unfold main_step. rewrite Hpc. by apply IH.
Qed.

(** X12: [start] followed by [halt] on a monitor that is not running and
    has nothing to do (replica manager null or idle, no change pending)
    gives the monitor back as it was: [log] NULL, [running] false, no
    thread, and no call made. *)
Theorem start_then_halt l s :
  thread s = None ->
  running s = false ->
  log s = None ->
  nothing_to_do s = true ->
  forall fuel,
    match start l s with
    | Some s1 => halt (S fuel) s1
    | None => None
    end = Some s.
Proof.
  intros Hpc Hrun Hlog Hidle fuel.
  set (s1 := set_thread (Some AtWait) (set_log_running l true s)).
  assert (start l s = Some s1) as ->
    by (unfold start; by rewrite Hlog, Hrun).
  set (s2 := set_thread (Some AtWait) (set_log_running None false s)).
  assert (halt_request s1 = s2) as Hreq by done.
  assert (main_step s2 = set_thread (Some Finished) s2) as Hstep.
  { unfold main_step, wait_step. simpl.
    assert (nothing_to_do s2 = true) as -> by exact Hidle. done. }
  unfold halt, join. rewrite Hreq.
  change (run (S fuel) s2) with (run fuel (main_step s2)).
  rewrite Hstep, run_finished by done. simpl.
  destruct s; simpl in *. by subst.
Qed.

Lemma act_started a s s' :
  (is_Some (log s) -> running s = true) ->
  (running s = true -> is_Some (thread s)) ->
  act a s = Some s' ->
  (is_Some (log s') -> running s' = true) /\
  (running s' = true -> is_Some (thread s')).
Proof.
  intros Hlog Hthread. destruct a as [l| | |]; simpl.
  - unfold start. repeat case_match; intros; simplify_eq; simpl; auto.
  - intros [= <-]. unfold halt_request.
    destruct (running s) eqn:Hrun; simpl.
    + unfold notify_one. simpl.
      destruct (thread s) as [[]|]; simpl;
        (split; [by intros [? ?]|done]).
    + rewrite Hrun. by split.
  - intros [= <-]. unfold trackerChangesEnqueued, notify_one.
    destruct (thread s) as [[]|] eqn:Hpc; simpl; rewrite ?Hpc; done.
  - intros [= <-]. destruct (main_step_fields s) as (_ & -> & ->).
    split; [done|]. intros Hrun. destruct (Hthread Hrun) as [pc Hpc].
    unfold main_step. rewrite Hpc. destruct pc; try (by eexists).
    + unfold wait_step. repeat case_match; by eexists.
    + unfold drain_step.
      destruct (getChange (tracker s)) as [[[server event]|] t'].
      * destruct (decide (event <> SERVER_CRASHED));
          [simpl; rewrite Hpc; by eexists|]. cbv zeta.
        destruct (notify_failure_thread_cases (set_tracker t' s)
                    (serverId server)) as [->| ->]; simpl;
          rewrite ?Hpc; by eexists.
      * unfold after_drain. repeat case_match; by eexists.
Qed.

(** X6: in every state a monitor can reach from its constructor by
    [start], [halt], notifications and steps of its thread, a non-null
    [log] means the monitor is running, and a running monitor has a
    thread.  So the assertion of [start] can only fail on a monitor that is
    already started, called with another log. *)
Theorem started_invariant (acts : list Action) rm (t : T) (w : W) s :
  exec acts (construct rm t w) = Some s ->
  (is_Some (log s) -> running s = true) /\
  (running s = true -> is_Some (thread s)) /\
  (forall l, start l s = None -> running s = true).
Proof.
  assert (forall s0,
            (is_Some (log s0) -> running s0 = true) ->
            (running s0 = true -> is_Some (thread s0)) ->
            exec acts s0 = Some s ->
            (is_Some (log s) -> running s = true) /\
            (running s = true -> is_Some (thread s))) as Hall.
  { induction acts as [|a rest IH]; intros s0 Hlog Hthread Hexec.
    - by simplify_eq/=.
    - simpl in Hexec. destruct (act a s0) as [s1|] eqn:Hact; [|done].
      destruct (act_started a s0 s1 Hlog Hthread Hact) as [Hlog1 Hthread1].
      by apply (IH s1). }
  intros Hexec.
  destruct (Hall (construct rm t w)) as [Hlog Hthread];
    [by intros [? ?]|done|done|].
  split; [done|]. split; [done|].
  intros l Hfail. apply Hlog. unfold start in Hfail.
  destruct (log s); [by eexists|]. by destruct (running s).
Qed.

(** ** What the monitor never calls *)

Lemma act_null_replica_manager a s s' :
  replicaManager s = None ->
  act a s = Some s' ->
  replicaManager s' = None /\ calls s' = calls s /\ world s' = world s.
Proof.
  intros Hrm. destruct a as [l| | |]; simpl.
  - unfold start. repeat case_match; intros; simplify_eq; done.
  - unfold halt_request, notify_one. repeat case_match; intros;
      simplify_eq; done.
  - unfold trackerChangesEnqueued, notify_one. repeat case_match; intros;
      simplify_eq; done.
  - intros [= <-]. unfold main_step.
    destruct (thread s) as [[]|]; try done.
    + unfold wait_step. repeat case_match; done.
    + unfold drain_step.
      destruct (getChange (tracker s)) as [[[server event]|] t'].
      * destruct (decide (event <> SERVER_CRASHED)); [done|].
        unfold notify_failure. simpl. by rewrite Hrm.
      * unfold after_drain. simpl. by rewrite Hrm.
Qed.

(** X4: a monitor constructed with a NULL replica manager takes no action
    on backup failures: whatever is started, halted, enqueued or drained,
    it makes no call and leaves the master side untouched. *)
Theorem null_replica_manager_is_silent (acts : list Action) s s' :
  replicaManager s = None ->
  exec acts s = Some s' ->
  replicaManager s' = None /\ calls s' = calls s /\ world s' = world s.
Proof.
  revert s. induction acts as [|a rest IH]; intros s Hrm Hexec.
  - by simplify_eq/=.
  - simpl in Hexec. destruct (act a s) as [s1|] eqn:Hact; [|done].
    destruct (act_null_replica_manager _ _ _ Hrm Hact) as (Hrm1 & <- & <-).
    by apply IH.
Qed.

Lemma notify_failure_null_log s id :
  log s = None ->
  List.filter isRolloverCall (calls (notify_failure id s)) =
  List.filter isRolloverCall (calls s).
Proof.
  intros Hlog. unfold notify_failure. rewrite Hlog.
  destruct (replicaManager s); [|done].
  destruct (handleBackupFailure id (world s)) as [w1 r|w1]; simpl;
    rewrite List.filter_app; simpl; by rewrite app_nil_r.
Qed.

Lemma act_null_log a s s' :
  log s = None ->
  isStart a = false ->
  act a s = Some s' ->
  log s' = None /\
  List.filter isRolloverCall (calls s') = List.filter isRolloverCall (calls s).
Proof.
  intros Hlog Ha. destruct a as [l| | |]; simpl; try done.
  - unfold halt_request, notify_one. repeat case_match; intros;
      simplify_eq; done.
  - unfold trackerChangesEnqueued, notify_one. repeat case_match; intros;
      simplify_eq; done.
  - intros [= <-]. destruct (main_step_fields s) as (_ & -> & _).
    split; [done|]. unfold main_step.
    destruct (thread s) as [[]|]; try done.
    + unfold wait_step. repeat case_match; done.
    + unfold drain_step.
      destruct (getChange (tracker s)) as [[[server event]|] t'].
      * destruct (decide (event <> SERVER_CRASHED)); [done|].
        by rewrite notify_failure_null_log.
      * unfold after_drain. simpl.
        destruct (replicaManager s); [|done].
        destruct (proceed (world s)); simpl;
          rewrite List.filter_app; simpl; by rewrite app_nil_r.
Qed.

(** X5: without a log the head is never rolled: as long as [start] is not
    called, a monitor whose [log] is NULL, never started or started with a
    NULL log, makes no call of [allocateHeadIfStillOn], whatever its
    thread drains, and its [log] stays NULL. *)
Theorem no_rollover_without_log (acts : list Action) s s' :
  log s = None ->
  forallb (fun a => negb (isStart a)) acts = true ->
  exec acts s = Some s' ->
  log s' = None /\
  List.filter isRolloverCall (calls s') = List.filter isRolloverCall (calls s).
Proof.
  revert s. induction acts as [|a rest IH]; intros s Hlog Hacts Hexec.
  - by simplify_eq/=.
  - simpl in Hexec, Hacts. apply andb_true_iff in Hacts as [Ha Hrest].
    apply negb_true_iff in Ha.
    destruct (act a s) as [s1|] eqn:Hact; [|done].
    destruct (act_null_log _ _ _ Hlog Ha Hact) as (Hlog1 & <-).
    by apply IH.
Qed.

Lemma rolloversFollowFailures_app p l l' :
  rolloversFollowFailures p l = true ->
  rolloversFollowFailures false l' = true ->
  rolloversFollowFailures p (l ++ l') = true.
Proof.
  revert p. induction l as [|[id|seg|] l IH]; intros p Hl Hl'; simpl in *.
  - by destruct l' as [|[] ?].
  - by apply IH.
  - apply andb_true_iff in Hl as [-> Hl]. simpl. by apply IH.
  - by apply IH.
Qed.

Lemma main_step_suffix s :
  exists suffix,
    calls (main_step s) = calls s ++ suffix /\
    rolloversFollowFailures false suffix = true.
Proof.
  unfold main_step. destruct (thread s) as [[]|];
    try (exists []; by rewrite app_nil_r).
  - unfold wait_step. exists []. rewrite app_nil_r.
    repeat case_match; done.
  - unfold drain_step.
    destruct (getChange (tracker s)) as [[[server event]|] t'].
    + destruct (decide (event <> SERVER_CRASHED));
        [exists []; by rewrite app_nil_r|].
      unfold notify_failure. simpl.
      destruct (replicaManager s); [|exists []; by rewrite app_nil_r].
      destruct (handleBackupFailure (serverId server) (world s))
        as [w1 r|w1]; simpl;
        [|by exists [CallHandleBackupFailure (serverId server)]].
      destruct (log s), r as [seg|]; simpl;
        try (by exists [CallHandleBackupFailure (serverId server)]).
      exists [CallHandleBackupFailure (serverId server);
              CallAllocateHeadIfStillOn seg].
      destruct (allocateHeadIfStillOn seg w1); simpl;
        by rewrite <- app_assoc.
    + unfold after_drain. simpl.
      destruct (replicaManager s); [|exists []; by rewrite app_nil_r].
      exists [CallProceed]. by destruct (proceed (world s)).
Qed.

(** X13: the head is rolled only in answer to a backup failure: in the
    sequence of calls the monitor makes, every [allocateHeadIfStillOn]
    comes directly after a [handleBackupFailure], whatever is started,
    halted, enqueued or drained in between. *)
Theorem rollover_only_after_failure (acts : list Action) s s' :
  rolloversFollowFailures false (calls s) = true ->
  exec acts s = Some s' ->
  rolloversFollowFailures false (calls s') = true.
Proof.
  revert s. induction acts as [|a rest IH]; intros s Hs Hexec.
  - by simplify_eq/=.
  - simpl in Hexec. destruct (act a s) as [s1|] eqn:Hact; [|done].
    apply (IH s1); [|done].
    destruct a as [l| | |]; simpl in Hact.
    + unfold start in Hact. repeat case_match; simplify_eq; done.
    + unfold halt_request, notify_one in Hact.
      repeat case_match; simplify_eq; done.
    + unfold trackerChangesEnqueued, notify_one in Hact.
      repeat case_match; simplify_eq; done.
    + simplify_eq. destruct (main_step_suffix s) as (suffix & -> & Hsuf).
      by apply rolloversFollowFailures_app.
Qed.

(** ** Sleeping, waking, returning *)

(** X8: a sleeping thread that is notified re-evaluates the wait
    condition: woken with nothing to do and [running] still set it goes
    back to sleep and the monitor is exactly as before (a spurious wake-up
    is harmless); woken with a change pending or a busy replica manager it
    goes on to drain, whether or not [running] is set. *)
Theorem wakeup s :
  thread s = Some Blocked ->
  (running s = true -> nothing_to_do s = true ->
   main_step (trackerChangesEnqueued s) = s) /\
  (nothing_to_do s = false ->
   main_step (trackerChangesEnqueued s) = set_thread (Some AtDrain) s).
Proof.
  intros Hpc. unfold trackerChangesEnqueued, notify_one. rewrite Hpc.
  unfold main_step, wait_step. simpl.
  assert (nothing_to_do (set_thread (Some AtWait) s) = nothing_to_do s)
    as -> by done.
  split.
  - intros -> ->. simpl. destruct s; simpl in *. by subst.
  - by intros ->.
Qed.

(** X9: [main] returns at one place only: a step of the thread ends in
    the return exactly when the thread is at the wait check, [running] is
    false, the replica manager is null or idle, and the tracker has no
    change pending.  So the thread never returns while [running] is set,
    and never leaves a pending change undrained. *)
Theorem returns_only_when_halted s :
  thread s <> Some Finished ->
  (thread (main_step s) = Some Finished <->
   thread s = Some AtWait /\ running s = false /\
   (replicaManager s = None \/ isIdle (world s) = true) /\
   hasChanges (tracker s) = false).
Proof.
  intros Hnot. unfold main_step.
  destruct (thread s) as [[]|] eqn:Hpc;
    try (split; [congruence|by intros [[=] _]]).
  - unfold wait_step, nothing_to_do.
    destruct (replicaManager s) as [rm|];
      destruct (hasChanges (tracker s)), (running s);
      try destruct (isIdle (world s)); simpl; split; try done;
      try (intros (_ & ? & ? & ?); done);
      try (intros (_ & ? & [?|?] & ?); done); auto.
  - split; [|by intros [[=] _]].
    unfold drain_step.
    destruct (getChange (tracker s)) as [[[server event]|] t'].
    + destruct (decide (event <> SERVER_CRASHED)).
      * simpl. by rewrite Hpc.
      * intros Hfin. cbv zeta in Hfin.
        destruct (notify_failure_thread_cases (set_tracker t' s)
                    (serverId server)) as [H1|H1];
          rewrite H1 in Hfin; simpl in Hfin; congruence.
    + unfold after_drain. repeat case_match; done.
Qed.

(** X11: the thread dies of an exception only when a call into the
    replica manager or the log throws: a step ends in the rethrow exactly
    when the thread is draining with a non-null replica manager and either
    the change taken is a crash and [handleBackupFailure] throws, or it
    returns a segment id, the log is non-null and [allocateHeadIfStillOn]
    throws, or there is no change left and [proceed] throws. *)
Theorem thread_fails_iff s :
  thread s <> Some Failed ->
  (thread (main_step s) = Some Failed <->
   thread s = Some AtDrain /\
   replicaManager s <> None /\
   match getChange (tracker s) with
   | (Some (server, event), _) =>
       event = SERVER_CRASHED /\
       match handleBackupFailure (serverId server) (world s) with
       | Throws _ => True
       | Returns w1 r =>
           match log s, r with
           | Some _, Some seg =>
               exists w2, allocateHeadIfStillOn seg w1 = Throws w2
           | _, _ => False
           end
       end
   | (None, _) => exists w1, proceed (world s) = Throws w1
   end).
Proof.
  intros Hnot. unfold main_step.
  destruct (thread s) as [[]|] eqn:Hpc;
    try (split; [congruence|by intros [[=] _]]).
  - split; [|by intros [[=] _]].
    unfold wait_step. repeat case_match; done.
  - unfold drain_step.
    destruct (getChange (tracker s)) as [[[server event]|] t'].
    + destruct (decide (event <> SERVER_CRASHED)) as [Hne|Heq].
      * simpl. rewrite Hpc. split; [done|]. by intros (_ & _ & ? & _).
      * assert (event = SERVER_CRASHED) as ->
          by (destruct event; try done; by destruct Heq).
        unfold notify_failure. simpl.
        destruct (replicaManager s) as [rm|]; simpl;
          [|rewrite Hpc; split; [done|by intros (_ & ? & _)]].
        destruct (handleBackupFailure (serverId server) (world s))
          as [w1 r|w1]; simpl; [|by split].
        destruct (log s), r as [seg|]; simpl;
          try (rewrite Hpc; split; [done|by intros (_ & _ & _ & ?)]).
        destruct (allocateHeadIfStillOn seg w1) as [w2 []|w2]; simpl.
        -- rewrite Hpc. split; [done|]. by intros (_ & _ & _ & ? & ?).
        -- split; [|done]. intros _. repeat split; try done. by exists w2.
    + unfold after_drain. simpl.
      destruct (replicaManager s) as [rm|]; simpl;
        [|split; [done|by intros (_ & ? & _)]].
      destruct (proceed (world s)) as [w1 []|w1]; simpl.
      * split; [done|]. by intros (_ & _ & ? & ?).
      * split; [|done]. intros _. repeat split; try done. by exists w1.
Qed.

(** ** halt joins *)

Lemma drain_step_some s c t' :
  thread s = Some AtDrain ->
  quiet s ->
  getChange (tracker s) = (Some c, t') ->
  thread (main_step s) = Some AtDrain /\ tracker (main_step s) = t'.
Proof.
  intros Hpc Hquiet Hchange. unfold main_step, drain_step.
  rewrite Hpc, Hchange. destruct c as [server event].
  destruct (decide (event <> SERVER_CRASHED)); [done|].
  unfold notify_failure. simpl.
  destruct (replicaManager s) as [rm|] eqn:Hrm; [|done].
  destruct Hquiet as [Hnone|[(Hhbf & Halloc & _) _]]; [congruence|].
  destruct (Hhbf (serverId server) (world s)) as (w1 & r & ->).
  destruct (log s), r as [seg|]; simpl; try done.
  by destruct (Halloc seg w1) as (w2 & ->).
Qed.

Lemma drain_step_none s t' :
  thread s = Some AtDrain ->
  quiet s ->
  getChange (tracker s) = (None, t') ->
  thread (main_step s) = Some AtWait /\ tracker (main_step s) = t'.
Proof.
  intros Hpc Hquiet Hchange. unfold main_step, drain_step, after_drain.
  rewrite Hpc, Hchange. simpl.
  destruct (replicaManager s) as [rm|] eqn:Hrm; [|done].
  destruct Hquiet as [Hnone|[(_ & _ & Hproceed) _]]; [congruence|].
  by destruct (Hproceed (world s)) as (w1 & ->).
Qed.

Lemma quiet_nothing_to_do s :
  quiet s -> nothing_to_do s = negb (hasChanges (tracker s)).
Proof.
  unfold nothing_to_do. intros [->|[_ Hidle]]; [done|].
  destruct (replicaManager s); [|done]. by rewrite Hidle.
Qed.

Lemma quiet_main_step s : quiet s -> quiet (main_step s).
Proof.
  unfold quiet. destruct (main_step_fields s) as (-> & _). done.
Qed.

Lemma last_two_steps s t' :
  thread s = Some AtDrain ->
  running s = false ->
  quiet s ->
  getChange (tracker s) = (None, t') ->
  hasChanges t' = false ->
  forall fuel,
    thread (run (S (S fuel)) s) = Some Finished /\
    hasChanges (tracker (run (S (S fuel)) s)) = false.
Proof.
  intros Hpc Hrun Hquiet Hchange Hempty fuel.
  destruct (drain_step_none s t' Hpc Hquiet Hchange) as [Hpc1 Htr1].
  simpl.
  assert (main_step (main_step s) =
          set_thread (Some Finished) (main_step s)) as ->.
  { unfold main_step at 1. rewrite Hpc1. unfold wait_step.
    rewrite (quiet_nothing_to_do _ (quiet_main_step s Hquiet)), Htr1, Hempty.
    simpl. destruct (main_step_fields s) as (_ & _ & ->). by rewrite Hrun. }
  rewrite run_finished by done. simpl. by rewrite Htr1.
Qed.

Lemma finish_from_drain measure :
  drains measure ->
  forall k s,
    measure (tracker s) <= k ->
    thread s = Some AtDrain ->
    running s = false ->
    quiet s ->
    forall fuel, k + 2 <= fuel ->
      thread (run fuel s) = Some Finished /\
      hasChanges (tracker (run fuel s)) = false.
Proof.
  intros Hdrains. induction k as [|k IH];
    intros s Hk Hpc Hrun Hquiet fuel Hfuel;
    (destruct fuel as [|fuel]; [lia|]);
    pose proof (Hdrains (tracker s)) as Ht;
    destruct (hasChanges (tracker s)) eqn:Hchanges.
  - destruct Ht as (c & t' & _ & Hlt). lia.
  - destruct Ht as (t' & Hchange & Hempty).
    destruct fuel as [|fuel]; [lia|]. by apply (last_two_steps s t').
  - destruct Ht as (c & t' & Hchange & Hlt).
    destruct (drain_step_some s c t' Hpc Hquiet Hchange) as [Hpc1 Htr1].
    simpl. apply IH; try done.
    + rewrite Htr1. lia.
    + destruct (main_step_fields s) as (_ & _ & ->). done.
    + by apply quiet_main_step.
    + lia.
  - destruct Ht as (t' & Hchange & Hempty).
    destruct fuel as [|fuel]; [lia|]. by apply (last_two_steps s t').
Qed.

Lemma finish_from_wait measure :
  drains measure ->
  forall s,
    thread s = Some AtWait ->
    running s = false ->
    quiet s ->
    forall fuel, measure (tracker s) + 3 <= fuel ->
      thread (run fuel s) = Some Finished /\
      hasChanges (tracker (run fuel s)) = false.
Proof.
  intros Hdrains s Hpc Hrun Hquiet fuel Hfuel.
  destruct fuel as [|fuel]; [lia|]. simpl.
  destruct (hasChanges (tracker s)) eqn:Hchanges.
  - assert (main_step s = set_thread (Some AtDrain) s) as ->.
    { unfold main_step, wait_step.
      by rewrite Hpc, (quiet_nothing_to_do _ Hquiet), Hchanges. }
    apply (finish_from_drain measure Hdrains (measure (tracker s)));
      simpl; try done. lia.
  - assert (main_step s = set_thread (Some Finished) s) as ->.
    { unfold main_step, wait_step.
      by rewrite Hpc, (quiet_nothing_to_do _ Hquiet), Hchanges, Hrun. }
    rewrite run_finished by done. done.
Qed.

(** X7: the destructor's [halt()] comes back: when the replica manager is
    null, or is always idle and nothing throws, and the tracker's backlog
    is finite, the thread drains what is pending and returns within
    backlog + 3 of its steps after the halt request, wherever it stood;
    [join] then succeeds and leaves [running] false, [log] NULL, no thread
    and no change pending. *)
Theorem halt_joins (measure : T -> nat) s :
  drains measure ->
  quiet s ->
  running s = true ->
  thread s = Some AtWait \/ thread s = Some Blocked \/
    thread s = Some AtDrain ->
  forall fuel, measure (tracker s) + 3 <= fuel ->
    exists s',
      destroy fuel s = Some s' /\
      running s' = false /\ log s' = None /\ thread s' = None /\
      hasChanges (tracker s') = false /\
      replicaManager s' = replicaManager s.
Proof.
  intros Hdrains Hquiet Hrun Hpc fuel Hfuel.
  unfold destroy, halt. rewrite Hrun. simpl.
  set (s1 := halt_request s).
  assert (running s1 = false /\ log s1 = None /\
          replicaManager s1 = replicaManager s /\ tracker s1 = tracker s /\
          (thread s1 = Some AtWait \/ thread s1 = Some AtDrain))
    as (Hrun1 & Hlog1 & Hrm1 & Htr1 & Hpc1).
  { unfold s1, halt_request, notify_one. rewrite Hrun. simpl.
    destruct Hpc as [Hp|[Hp|Hp]]; rewrite Hp; simpl;
      repeat split; auto. }
  assert (quiet s1) as Hquiet1 by (unfold quiet; by rewrite Hrm1).
  assert (thread (run fuel s1) = Some Finished /\
          hasChanges (tracker (run fuel s1)) = false) as [Hfin Hempty].
  { destruct Hpc1 as [Hw|Hd].
    - apply (finish_from_wait measure); try done. rewrite Htr1. lia.
    - apply (finish_from_drain measure Hdrains (measure (tracker s)));
        try done; [rewrite Htr1|]; lia. }
  unfold join. rewrite Hfin. eexists. split; [done|]. simpl.
  destruct (run_fields fuel s1) as (-> & -> & ->). done.
Qed.

(** ** Draining *)

Lemma crash_step_calls s server event t' rm :
  thread s = Some AtDrain ->
  replicaManager s = Some rm ->
  neverThrows ->
  getChange (tracker s) = (Some (server, event), t') ->
  thread (main_step s) = Some AtDrain /\
  tracker (main_step s) = t' /\
  List.filter isFailureCall (calls (main_step s)) =
    List.filter isFailureCall (calls s) ++
    (if isCrash (server, event)
     then [CallHandleBackupFailure (serverId server)] else []).
Proof.
  intros Hpc Hrm (Hhbf & Halloc & _) Hchange.
  unfold main_step, drain_step. rewrite Hpc, Hchange.
  unfold isCrash. simpl.
  destruct (decide (event <> SERVER_CRASHED)) as [Hne|Heq].
  - rewrite bool_decide_eq_false_2 by done. simpl.
    by rewrite app_nil_r.
  - assert (event = SERVER_CRASHED) as ->
      by (destruct event; try done; by destruct Heq).
    rewrite bool_decide_eq_true_2 by done.
    unfold notify_failure. simpl. rewrite Hrm.
    destruct (Hhbf (serverId server) (world s)) as (w1 & r & ->).
    destruct (log s), r as [seg|]; simpl;
      try destruct (Halloc seg w1) as (w2 & ->); simpl;
      rewrite ?List.filter_app; simpl;
      rewrite ?app_nil_r, <- ?app_assoc; done.
Qed.

(** X10: draining [n] changes with a non-null replica manager, none of
    whose calls throws, calls [handleBackupFailure] once for every crash
    among them, in the order the tracker handed them out and with the
    crashed server's id, and for no other change; the log being null or
    not makes no difference to these calls. *)
Theorem drain_calls n :
  forall s rm,
    thread s = Some AtDrain ->
    replicaManager s = Some rm ->
    neverThrows ->
    length (nextChanges n (tracker s)) = n ->
    thread (run n s) = Some AtDrain /\
    List.filter isFailureCall (calls (run n s)) =
      List.filter isFailureCall (calls s) ++
      map (fun c => CallHandleBackupFailure (serverId c.1))
          (List.filter isCrash (nextChanges n (tracker s))).
Proof.
  induction n as [|n IH]; intros s rm Hpc Hrm Hsafe Hlen.
  - simpl. by rewrite app_nil_r.
  - simpl in Hlen |- *.
    destruct (getChange (tracker s)) as [[[server event]|] t'] eqn:Hchange;
      [|done].
    simpl in Hlen.
    destruct (crash_step_calls s server event t' rm Hpc Hrm Hsafe Hchange)
      as (Hpc1 & Htr1 & Hcalls1).
    destruct (IH (main_step s) rm) as (Hpc2 & Hcalls2); try done.
    { by destruct (main_step_fields s) as (-> & _). }
    { rewrite Htr1. lia. }
    split; [done|]. rewrite Hcalls2, Hcalls1, Htr1. simpl.
    destruct (isCrash (server, event)); simpl;
      by rewrite <- ?app_assoc, ?app_nil_r.
Qed.

End Fields.

(** ** Evaluated runs *)

Lemma queue_drains :
  drains (T := QueueTracker) (fun t => length (pending t)).
Proof.
  intros [[|c q] tbl]; simpl.
  - by eexists.
  - eexists _, _. split; [done|]. simpl. lia.
Qed.

Lemma calm_never_throws : neverThrows (W := CalmMaster).
Proof.
  split; [|split].
  - intros id w. simpl. destruct (N.eqb id 42); by eexists _, _.
  - intros seg w. simpl. destruct (N.eqb seg (calmHead w)); by eexists.
  - intros w. by eexists.
Qed.

(** Witness of [start_again]: the monitor of the scenario, started twice
    with log 5. *)
Lemma start_again_witness :
  exists s1,
    start (Some 5%N) fresh = Some s1 /\ start (Some 5%N) s1 = Some s1.
Proof.
  eexists. split; [reflexivity|].
  apply (start_again (Some 5%N) fresh). reflexivity.
Defined.

(** Witness of [nothing_before_start]: a notification, a halt and two
    steps on the monitor of the scenario before it is started; the crash
    of backup 42 stays in the tracker. *)
Lemma nothing_before_start_witness :
  exec [ActEnqueued; ActMainStep; ActHaltRequest; ActMainStep] fresh
  = Some fresh.
Proof.
  apply (nothing_before_start
           [ActEnqueued; ActMainStep; ActHaltRequest; ActMainStep] fresh);
    reflexivity.
Defined.

(** Witness of [start_then_halt]: a monitor with nothing pending and an
    idle replica manager. *)
Lemma start_then_halt_witness :
  match start (Some 5%N) quietFresh with
  | Some s1 => halt 1 s1
  | None => None
  end = Some quietFresh.
Proof.
  exact (start_then_halt (Some 5%N) quietFresh
           eq_refl eq_refl eq_refl eq_refl 0).
Defined.

(** Witness of [null_replica_manager_is_silent]: without a replica
    manager the crash of backup 42 is drained and no call is made. *)
Lemma null_replica_manager_is_silent_witness :
  exists s',
    exec [ActEnqueued; ActMainStep; ActMainStep; ActMainStep; ActMainStep]
         unmanagedAsleep = Some s' /\
    calls s' = [] /\ world s' = master17 /\ pending (tracker s') = [].
Proof.
  eexists. split; [reflexivity|].
  destruct (null_replica_manager_is_silent
              [ActEnqueued; ActMainStep; ActMainStep; ActMainStep;
               ActMainStep]
              unmanagedAsleep _ eq_refl eq_refl) as (_ & Hcalls & Hworld).
  split; [exact Hcalls|]. split; [exact Hworld|reflexivity].
Defined.

(** Witness of [no_rollover_without_log]: started with a NULL log, the
    monitor reports the crash of backup 42 and does not roll the head. *)
Lemma no_rollover_without_log_witness :
  exists s',
    exec [ActMainStep; ActMainStep; ActMainStep; ActEnqueued]
         startedWithoutLog = Some s' /\
    calls s' = [CallHandleBackupFailure 42%N; CallProceed] /\
    log s' = None /\
    List.filter isRolloverCall (calls s') = [].
Proof.
  eexists. split; [reflexivity|]. split; [reflexivity|].
  exact (no_rollover_without_log
           [ActMainStep; ActMainStep; ActMainStep; ActEnqueued]
           startedWithoutLog _ eq_refl eq_refl eq_refl).
Defined.

(** Witness of [rollover_only_after_failure]: the rollover scenario. *)
Lemma rollover_only_after_failure_witness :
  exists s',
    exec [ActStart (Some 5%N); ActMainStep; ActMainStep; ActMainStep;
          ActMainStep] fresh = Some s' /\
    calls s' = [CallHandleBackupFailure 42%N; CallAllocateHeadIfStillOn 17%N;
                CallProceed] /\
    rolloversFollowFailures false (calls s') = true.
Proof.
  eexists. split; [reflexivity|]. split; [reflexivity|].
  exact (rollover_only_after_failure
           [ActStart (Some 5%N); ActMainStep; ActMainStep; ActMainStep;
            ActMainStep] fresh _ eq_refl eq_refl).
Defined.

(** Witness of [wakeup]: woken for nothing, and woken by the crash of
    backup 42. *)
Lemma wakeup_witness :
  main_step (trackerChangesEnqueued sleeping) = sleeping /\
  main_step (trackerChangesEnqueued asleepWithCrash)
    = set_thread (Some AtDrain) asleepWithCrash.
Proof.
  split.
  - exact (proj1 (wakeup sleeping eq_refl) eq_refl eq_refl).
  - exact (proj2 (wakeup asleepWithCrash eq_refl) eq_refl).
Defined.

(** Witness of [returns_only_when_halted]: the sleeping monitor, halted. *)
Lemma returns_only_when_halted_witness :
  thread (main_step (halt_request sleeping)) = Some Finished.
Proof.
  destruct (returns_only_when_halted (halt_request sleeping))
    as [_ Hback]; [discriminate|].
  apply Hback. split; [reflexivity|]. split; [reflexivity|].
  split; [right; reflexivity|reflexivity].
Defined.

(** Witness of [thread_fails_iff]: [handleBackupFailure] throws. *)
Lemma thread_fails_iff_witness :
  thread (main_step brokenDraining) = Some Failed.
Proof.
  destruct (thread_fails_iff brokenDraining) as [_ Hback]; [discriminate|].
  apply Hback. split; [reflexivity|]. split; [discriminate|]. simpl. split; reflexivity.
Defined.

(** Witness of [halt_joins]: no replica manager, the thread asleep, one
    crash pending: four steps are enough. *)
Lemma halt_joins_witness :
  exists s',
    destroy 4 unmanagedAsleep = Some s' /\
    running s' = false /\ log s' = None /\ thread s' = None /\
    hasChanges (tracker s') = false /\
    replicaManager s' = replicaManager unmanagedAsleep.
Proof.
  apply (halt_joins (fun t => length (pending t)) unmanagedAsleep
           queue_drains (or_introl eq_refl) eq_refl
           (or_intror (or_introl eq_refl)) 4).
  simpl. lia.
Defined.

(** Witness of [drain_calls]: an arrival, the crash of 42, its removal and
    the crash of 9. *)
Lemma drain_calls_witness :
  thread (run 4 calmDraining) = Some AtDrain /\
  List.filter isFailureCall (calls (run 4 calmDraining)) =
    [CallHandleBackupFailure 42%N; CallHandleBackupFailure 9%N].
Proof.
  exact (drain_calls 4 calmDraining 1%N eq_refl eq_refl calm_never_throws
           eq_refl).
Defined.

(** Witness of [started_invariant]: started, one step, halt requested. *)
Lemma started_invariant_witness :
  exists s,
    exec [ActStart (Some 5%N); ActMainStep; ActHaltRequest] fresh = Some s /\
    (is_Some (log s) -> running s = true) /\
    (running s = true -> is_Some (thread s)) /\
    (forall l, start l s = None -> running s = true).
Proof.
  eexists. split; [reflexivity|].
  exact (started_invariant [ActStart (Some 5%N); ActMainStep; ActHaltRequest]
           (Some 1%N) crashOf42 master17 _ eq_refl).
Defined.

End MonitorExtras.

(** * Further properties of the backup server's declarations *)

Module BackupExtras.

Import BackupServer.

Local Open Scope N_scope.

Lemma lessThan_spec a b :
  lessThan a b = true <->
  keyMasterId a < keyMasterId b \/
  (keyMasterId a = keyMasterId b /\ keySegmentId a < keySegmentId b).
Proof.
  unfold lessThan, pair_less. simpl.
  rewrite orb_true_iff, andb_true_iff, negb_true_iff, !N.ltb_lt, N.ltb_ge.
  lia.
Qed.

(** X14: [MasterSegmentIdPair::operator<] is a strict total order on the
    pairs of ids: irreflexive, transitive, asymmetric, and any two
    different keys are ordered one way or the other.  So the segments map
    treats two keys as the same entry exactly when they agree on both the
    master id and the segment id. *)
Theorem key_order a b c :
  lessThan a a = false /\
  (lessThan a b = true -> lessThan b c = true -> lessThan a c = true) /\
  (lessThan a b = true -> lessThan b a = false) /\
  (equivalentKeys a b = true <-> a = b) /\
  (a <> b -> lessThan a b = true \/ lessThan b a = true).
Proof.
  assert (forall x y, lessThan x y = false <-> ~ lessThan x y = true)
    as Hfalse by (intros x y; by destruct (lessThan x y)).
  assert (equivalentKeys a b = true <-> a = b) as Heq.
  { unfold equivalentKeys.
    rewrite andb_true_iff, !negb_true_iff, !Hfalse, !lessThan_spec.
    destruct a as [am asg], b as [bm bsg]. simpl. split.
    - intros [H1 H2]. f_equal; lia.
    - intros [= -> ->]. lia. }
  split; [|split; [|split; [|split]]].
  - rewrite Hfalse, lessThan_spec. lia.
  - rewrite !lessThan_spec. lia.
  - rewrite Hfalse, !lessThan_spec. lia.
  - done.
  - intros Hne. rewrite <- Heq in Hne. unfold equivalentKeys in Hne.
    destruct (lessThan a b), (lessThan b a); simpl in Hne; auto.
Qed.

(** Witness of [key_order]: segments 3 and 4 of master 7, segment 0 of
    master 8. *)
Lemma key_order_witness :
  lessThan (mkMasterSegmentIdPair 7 3) (mkMasterSegmentIdPair 8 0) = true /\
  lessThan (mkMasterSegmentIdPair 7 4) (mkMasterSegmentIdPair 7 3) = false /\
  (lessThan (mkMasterSegmentIdPair 7 4) (mkMasterSegmentIdPair 8 0) = true \/
   lessThan (mkMasterSegmentIdPair 8 0) (mkMasterSegmentIdPair 7 4) = true).
Proof.
  split; [|split].
  - exact (proj1 (proj2 (key_order (mkMasterSegmentIdPair 7 3)
                           (mkMasterSegmentIdPair 7 4)
                           (mkMasterSegmentIdPair 8 0))) eq_refl eq_refl).
  - exact (proj1 (proj2 (proj2 (key_order (mkMasterSegmentIdPair 7 3)
                                  (mkMasterSegmentIdPair 7 4)
                                  (mkMasterSegmentIdPair 8 0)))) eq_refl).
  - apply (proj2 (proj2 (proj2 (proj2
             (key_order (mkMasterSegmentIdPair 7 4)
                        (mkMasterSegmentIdPair 8 0)
                        (mkMasterSegmentIdPair 7 3)))))).
    discriminate.
Defined.

Lemma ids_apply_call size c x :
  masterId (apply_call size c x).1 = masterId x.1 /\
  segmentId (apply_call size c x).1 = segmentId x.1.
Proof.
  destruct x as [info r], c as [[|off len data| |]| |]; simpl;
    unfold open, write, close, free, startLoading, getSegment;
    repeat case_match; simplify_eq/=; done.
Qed.

Lemma invariant_apply_call size c x :
  invariant x.1 -> invariant (apply_call size c x).1.
Proof.
  destruct x as [info r], c as [op| |]; simpl.
  - apply (BackupFacts.invariant_apply_op size op (info, r)).
  - intros Hinv. pose proof (BackupFacts.invariant_startLoading info r Hinv).
    by destruct (startLoading info r) as [[st info'] r'].
  - apply BackupFacts.invariant_getSegment.
Qed.

(** X15: what the header says of the fields of [SegmentInfo] holds of a
    replica under any sequence of open, write, close, free, startLoading
    and getSegment, as the state table of the design defines them: the two
    ids never change; the staging buffer is there only while OPEN or
    CLOSED, the load completion only while CLOSED, and the storage handle
    exactly while OPEN or CLOSED. *)
Theorem fields_follow_state size cs m s r :
  let info := (apply_calls size cs (newSegmentInfo m s, r)).1 in
  masterId info = m /\ segmentId info = s /\
  (is_Some (segment info) -> state info = OPEN \/ state info = CLOSED) /\
  (is_Some (segmentSync info) -> state info = CLOSED) /\
  (is_Some (storageHandle info) <->
   state info = OPEN \/ state info = CLOSED).
Proof.
  assert (forall x,
            invariant x.1 ->
            invariant (apply_calls size cs x).1 /\
            masterId (apply_calls size cs x).1 = masterId x.1 /\
            segmentId (apply_calls size cs x).1 = segmentId x.1) as Hall.
  { induction cs as [|c rest IH]; intros x Hinv; [done|]. simpl.
    destruct (IH (apply_call size c x)) as (Hinv' & -> & ->);
      [by apply invariant_apply_call|].
    split; [done|]. apply ids_apply_call. }
  destruct (Hall (newSegmentInfo m s, r)) as (Hinv & Hm & Hs);
    [apply BackupFacts.invariant_new|].
  simpl. rewrite Hm, Hs. split; [done|]. split; [done|].
  unfold invariant in Hinv.
  destruct (state (apply_calls size cs (newSegmentInfo m s, r)).1).
  - destruct Hinv as (-> & -> & ->).
    repeat split; try (intros [? ?]; done); by intros [?|?].
  - destruct Hinv as (Hbuf & Hhandle & ->).
    repeat split; auto. intros [? ?]; done.
  - destruct Hinv as (Hhandle & _). repeat split; auto.
  - destruct Hinv as (-> & -> & ->).
    repeat split; try (intros [? ?]; done); by intros [?|?].
Qed.

(** Witness of [fields_follow_state]: open, write, close, start of the
    load: the replica is CLOSED with its load in flight. *)
Lemma fields_follow_state_witness :
  state (apply_calls 16
           [DoOp OpOpen; DoOp (OpWrite 0 12 s2Segment); DoOp OpClose;
            DoStartLoading]
           (newSegmentInfo 7 3, resources started)).1 = CLOSED.
Proof.
  apply (fields_follow_state 16
           [DoOp OpOpen; DoOp (OpWrite 0 12 s2Segment); DoOp OpClose;
            DoStartLoading] 7 3 (resources started)).
  vm_compute. by eexists.
Defined.

End BackupExtras.
